(** * Convergence waiters of the e2e test utilities

    A shallow embedding of the Go package [utils] of the operator's e2e
    tests (the Go text that follows the make rules in src/Makefile, from
    line 470 on): [VerifyPodsReadyByPrefix], [isPodReady],
    [WaitForESOResourceReady] and [WaitForExternalSecretsConfigReady],
    together with the small part of the Go libraries these functions call
    ([wait.PollUntilContextTimeout], [wait.Interrupted], [errors.Is],
    [unstructured.NestedSlice], [strings.HasPrefix], the [%v] verb of
    [fmt]).

    The context, the clock and the API server are the environment of a wait
    call.  One run of a waiter sees the answer of the API server to its first
    (immediate) probe, the answers to the probes made at the later timer
    ticks that fire while the context is still live, and the value of
    [ctx.Err()] once the context is done ([context.DeadlineExceeded] after
    the timeout, [context.Canceled] when the caller gave up). *)

From stdpp Require Import gmap strings list fin_maps sorting pretty.
From Stdlib Require Import ZArith.

#[local] Set Warnings "-register-all".
#[local] Open Scope string_scope.
#[local] Open Scope list_scope.

(** ** Go values *)

(** What an [interface{}] of a JSON-decoded object holds: [nil], [bool],
    [int64], [float64], [string], [[]interface{}] and
    [map[string]interface{}].  A [float64] is carried as the text [%v] prints
    for it; no waiter inspects a number in any other way. *)
Inductive value : Type :=
| VNil
| VBool (b : bool)
| VInt (n : Z)
| VFloat (g : string)
| VString (s : string)
| VSlice (l : list value)
| VMap (m : gmap string value).

(** [m[key]] on a [map[string]interface{}]: a missing key reads as [nil]. *)
Definition index (m : gmap string value) (key : string) : value :=
  default VNil (m !! key).

(** [v == "lit"] between an [interface{}] and a string constant: true when
    the dynamic type is [string] and the contents agree. *)
Definition ifaceEqString (v : value) (lit : string) : bool :=
  match v with
  | VString s => String.eqb s lit
  | _ => false
  end.

(** [s, _ := v.(string)]: the zero value when the assertion fails. *)
Definition assertString (v : value) : string :=
  match v with
  | VString s => s
  | _ => ""
  end.

(** ** Errors *)

(** The [error] values a waiter meets: the two sentinels of [context], the
    timeout sentinel of [wait], an error of the API client, the accessor
    error of [unstructured.Nested...] (the path, the value found and the type
    expected), the result of [fmt.Errorf] without [%w] (its text), and the
    result of [fmt.Errorf(msg + "%w", err)], which wraps [err]. *)
Inductive error : Type :=
| ctxCanceled
| ctxDeadlineExceeded
| errWaitTimeout
| statusError (reason : string)
| accessorError (path : list string) (val : value) (expected : string)
| errorString (msg : string)
| wrapError (msg : string) (err : error).

Module context.
Definition Canceled : error := ctxCanceled.
Definition DeadlineExceeded : error := ctxDeadlineExceeded.
End context.

Module errors.
(** [errors.Is(err, target)] for a [target] that is one of the three
    sentinels [context.Canceled], [context.DeadlineExceeded] and
    [wait.ErrWaitTimeout], the only targets it is given here: [err] or an
    error in its chain of [%w] wrappings is that sentinel.  (For another
    target Go compares the identity of the two error values, which this
    development never relies on.) *)
Fixpoint Is (err target : error) : bool :=
  match err, target with
  | ctxCanceled, ctxCanceled => true
  | ctxDeadlineExceeded, ctxDeadlineExceeded => true
  | errWaitTimeout, errWaitTimeout => true
  | wrapError _ inner, _ => Is inner target
  | _, _ => false
  end.
End errors.

(** ** fmt *)

Module fmt.
Definition entry_le (x y : string * string) : Prop := String.leb x.1 y.1.

(** The [%v] verb on an [interface{}]; maps print with sorted keys. *)
Fixpoint v (x : value) : string :=
  match x with
  | VNil => "<nil>"
  | VBool b => if b then "true" else "false"
  | VInt n => pretty n
  | VFloat g => g
  | VString s => s
  | VSlice l => "[" +:+ String.concat " " (map v l) +:+ "]"
  | VMap m =>
      "map[" +:+
      String.concat " "
        (map (λ kv : string * string, kv.1 +:+ ":" +:+ kv.2)
             (merge_sort entry_le (map_to_list (v <$> m)))) +:+
      "]"
  end.
End fmt.

(** ** strings *)

Module gostrings.
(** [strings.HasPrefix(s, prefix)]. *)
Definition HasPrefix (s prefix : string) : bool := String.prefix prefix s.

(** [strings.NewReplacer(oldnew...)]: the (old, new) pairs in argument
    order; an odd number of arguments panics ([None]). *)
Fixpoint NewReplacer (oldnew : list string)
    : option (list (string * string)) :=
  match oldnew with
  | [] => Some []
  | [_] => None
  | old :: new :: rest =>
      match NewReplacer rest with
      | Some pairs => Some ((old, new) :: pairs)
      | None => None
      end
  end.

(** The lookup of a replacer at one position: of the pairs whose old string
    is a prefix of [s], the first in argument order; [ignoreRoot] leaves the
    empty old string out. *)
Fixpoint lookup (pairs : list (string * string)) (s : string)
    (ignoreRoot : bool) : option (string * string) :=
  match pairs with
  | [] => None
  | (old, new) :: rest =>
      if String.prefix old s && negb (ignoreRoot && String.eqb old "")
      then Some (old, new)
      else lookup rest s ignoreRoot
  end.

(** [Replace] of a [Replacer]: the target is scanned from left to right; a match
    writes the new string and moves past the old one ([skip] counts the bytes
    of a match still to pass), a position without match copies its byte.
    After a match of the empty old string the same position is looked up once
    more without it. *)
Fixpoint replaceFrom (pairs : list (string * string)) (s : string)
    (skip : nat) : string :=
  match skip with
  | S n =>
      match s with
      | String _ s' => replaceFrom pairs s' n
      | EmptyString => ""
      end
  | O =>
      let copy :=
        match s with
        | String c s' => String c (replaceFrom pairs s' 0)
        | EmptyString => ""
        end in
      let pass (old : string) :=
        match s with
        | String _ s' => replaceFrom pairs s' (String.length old - 1)
        | EmptyString => ""
        end in
      match lookup pairs s false with
      | Some (old, new) =>
          if String.eqb old "" then
            new +:+
            match lookup pairs s true with
            | Some (old2, new2) => new2 +:+ pass old2
            | None => copy
            end
          else new +:+ pass old
      | None => copy
      end
  end.

Definition Replace (pairs : list (string * string)) (s : string) : string :=
  replaceFrom pairs s 0.

(** [old] occurs in [s] (the empty string occurs everywhere). *)
Fixpoint occursIn (old s : string) : bool :=
  String.prefix old s
  || match s with
     | String _ s' => occursIn old s'
     | EmptyString => false
     end.
End gostrings.

(** ** k8s.io/apimachinery/pkg/util/wait *)

Module wait.
(** What one invocation of a [ConditionWithContextFunc] returns. *)
Definition verdict : Type := bool * option error.

Section Poll.
Context {A S : Type}.

(** A condition closure: it consumes one answer [A] of the API server and
    may update the variables [S] it captured. *)
Definition ConditionFunc : Type := A → S → verdict * S.

(** The loop of [PollUntilContextTimeout] after the immediate probe: at
    every timer tick that fires while the context is live the condition
    runs, and [err != nil || ok] ends the loop with [err]; when the
    context is done the loop returns [ctx.Err()]. *)
Fixpoint loopConditionUntilContext (condition : ConditionFunc)
    (cause : error) (ticks : list A) (s : S) : option error * S :=
  match ticks with
  | [] => (Some cause, s)
  | a :: ticks' =>
      let '((ok, err), s') := condition a s in
      if bool_decide (is_Some err) || ok then (err, s')
      else loopConditionUntilContext condition cause ticks' s'
  end.

(** Modelled from the spec: [wait.PollUntilContextTimeout] of the vendored
    k8s.io/apimachinery, the Poller of the specification, is not among the
    sources.  Every caller passes [immediate = true]: the condition runs
    once before the first sleep, whatever the state of the context; the
    fixed interval and the timeout decide how many [later] ticks fire
    before the context is done with [cause]. *)
Definition PollUntilContextTimeout (condition : ConditionFunc)
    (cause : error) (first : A) (later : list A) (s : S)
    : option error * S :=
  let '((ok, err), s') := condition first s in
  if bool_decide (is_Some err) || ok then (err, s')
  else loopConditionUntilContext condition cause later s'.

End Poll.

(** [wait.Interrupted] of the vendored k8s.io/apimachinery (not among the
    sources).  Its contract: "A loop is considered interrupted if the
    calling context is cancelled, the context reaches its deadline, or a
    backoff reaches its maximum allowed steps"; it tests the three
    sentinels with [errors.Is]. *)
Definition Interrupted (err : error) : bool :=
  errors.Is err errWaitTimeout
  || errors.Is err context.Canceled
  || errors.Is err context.DeadlineExceeded.
End wait.

(** ** k8s.io/apimachinery/pkg/apis/meta/v1/unstructured *)

Module unstructured.
(** [NestedFieldNoCopy], walking [fields] from [val]; [walked] is the
    prefix of the path already followed (for the error's path). *)
Fixpoint nestedFrom (val : value) (walked fields : list string)
    : value * bool * option error :=
  match fields with
  | [] => (val, true, None)
  | field :: rest =>
      match val with
      | VNil => (VNil, false, None)
      | VMap m =>
          match m !! field with
          | Some val' => nestedFrom val' (walked ++ [field]) rest
          | None => (VNil, false, None)
          end
      | _ =>
          (VNil, false,
           Some (accessorError (walked ++ [field]) val
                   "map[string]interface{}"))
      end
  end.

Definition NestedFieldNoCopy (obj : gmap string value)
    (fields : list string) : value * bool * option error :=
  nestedFrom (VMap obj) [] fields.

(** [NestedSlice]: the field must hold a [[]interface{}]. *)
Definition NestedSlice (obj : gmap string value) (fields : list string)
    : list value * bool * option error :=
  let '(val, found, err) := NestedFieldNoCopy obj fields in
  if negb found || bool_decide (is_Some err) then ([], found, err)
  else
    match val with
    | VSlice l => (l, true, None)
    | _ => ([], false, Some (accessorError fields val "[]interface{}"))
    end.
End unstructured.

(** ** k8s.io/api/core/v1 *)

Module corev1.
(** [PodPhase], [PodConditionType] and [ConditionStatus] are string
    types. *)
Definition PodRunning : string := "Running".
Definition ConditionTrue : string := "True".

Record PodCondition : Type :=
  { Type' : string; Status' : string }.

Record PodStatus : Type :=
  { Phase : string; Conditions : list PodCondition }.

Record Pod : Type :=
  { Name : string; Status : PodStatus }.
End corev1.

(** ** github.com/aws/aws-sdk-go *)

Module awssdk.
(** The fields of [aws.Config] that [DeleteAWSSecret] sets: the static
    credentials and the region. *)
Record Config : Type :=
  { AccessKeyID : string; SecretAccessKey : string; Region : string }.

(** The fields of [secretsmanager.DeleteSecretInput] that it sets. *)
Record DeleteSecretInput : Type :=
  { SecretId : string; ForceDeleteWithoutRecovery : bool }.
End awssdk.

(** ** Package version (src/pkg/version/version.go) *)

Module version.
(** The package variables that the linker fills in ([-ldflags -X]). *)
Record vars : Type :=
  { commitFromGit : string;
    versionFromGit : string;
    majorFromGit : string;
    minorFromGit : string;
    buildDate : string }.

(** [version.Info] of k8s.io/apimachinery. *)
Record Info : Type :=
  { Major : string;
    Minor : string;
    GitVersion : string;
    GitCommit : string;
    GitTreeState : string;
    BuildDate : string;
    GoVersion : string;
    Compiler : string;
    Platform : string }.

(** Lines 36-44: the fields not named keep their zero value. *)
Definition Get (x : vars) : Info :=
  {| Major := majorFromGit x;
     Minor := minorFromGit x;
     GitVersion := versionFromGit x;
     GitCommit := commitFromGit x;
     GitTreeState := "";
     BuildDate := buildDate x;
     GoVersion := "";
     Compiler := "";
     Platform := "" |}.

(** Lines 48-55: [len] counts bytes and [commit[:7]] keeps the first seven. *)
Definition String (x : vars) : string :=
  let v := Get x in
  let commit := GitCommit v in
  let commit :=
    if (7 <? String.length commit)%nat then String.substring 0 7 commit
    else commit in
  GitVersion v +:+ " (commit: " +:+ commit +:+ ", built: " +:+
  BuildDate v +:+ ")".
End version.

(** ** Package utils *)

Module utils.
Import corev1.

(** What a [Get] or a [List] of the API client returns. *)
Abbreviation response T := (sum error T).

(** *** isPodReady *)

(** The body of the loop over [pod.Status.Conditions] (lines 559-563). *)
Definition markReady (ready : gmap string bool) (cond : PodCondition)
    : gmap string bool :=
  if bool_decide (is_Some (ready !! Type' cond))
     && String.eqb (Status' cond) ConditionTrue
  then <[Type' cond := true]> ready
  else ready.

(** Lines 553-566. *)
Definition isPodReady (pod : Pod) : bool :=
  let ready : gmap string bool :=
    <["Ready" := false]> (<["ContainersReady" := false]> ∅) in
  let ready := foldl markReady ready (Conditions (Status pod)) in
  default false (ready !! "Ready")
  && default false (ready !! "ContainersReady").

(** *** VerifyPodsReadyByPrefix *)

(** The two nested loops that fill [matched], keyed by pod name (lines
    529-536).  The module vendors golangci-lint v2 and so builds with Go 1.23
    or later, where each iteration of a range loop has its own [pod]: every
    entry of [matched] points to the pod it was stored for. *)
Definition matchPrefixes (prefixes : list string)
    (matched : gmap string Pod) (pod : Pod) : gmap string Pod :=
  foldl (λ matched prefix,
           if gostrings.HasPrefix (Name pod) prefix
           then <[Name pod := pod]> matched
           else matched)
        matched prefixes.

Definition matchPods (prefixes : list string) (items : list Pod)
    : gmap string Pod :=
  foldl (matchPrefixes prefixes) ∅ items.

(** The test of the loop over [matched]:
    [pod.Status.Phase != corev1.PodRunning || !isPodReady(pod)]. *)
Definition notReady (pod : Pod) : bool :=
  negb (String.eqb (Phase (Status pod)) PodRunning) || negb (isPodReady pod).

(** The condition closure of [VerifyPodsReadyByPrefix] (lines 523-549); the
    loop over [matched] returns at the first pod that fails the test, in
    whatever order the map is ranged over. *)
Definition podsCondition (prefixes : list string)
    : wait.ConditionFunc (A := response (list Pod)) (S := unit) :=
  λ listed u,
    match listed with
    | inl err => ((false, Some err), u)
    | inr items =>
        let matched := matchPods prefixes items in
        if negb (size matched =? length prefixes)%nat then ((false, None), u)
        else if existsb (λ kv, notReady kv.2) (map_to_list matched)
             then ((false, None), u)
             else ((true, None), u)
    end.

(** Lines 522-550. *)
Definition VerifyPodsReadyByPrefix (prefixes : list string)
    (cause : error) (first : response (list Pod))
    (later : list (response (list Pod))) : option error :=
  (wait.PollUntilContextTimeout (podsCondition prefixes) cause first later tt).1.

(** *** WaitForESOResourceReady *)

Definition newline : string := String (Ascii.ascii_of_nat 10) "".

(** The loop over [conds] (lines 588-604); [out] collects the lines written
    by [fmt.Printf].  The loop returns from the function at the first entry
    with type "Ready" and status "True". *)
Fixpoint scanReady (namespace name : string) (conds : list value)
    (out : list string) : bool * list string :=
  match conds with
  | [] => (false, out)
  | c :: conds' =>
      match c with
      | VMap cond =>
          let t := index cond "type" in
          let s := index cond "status" in
          let msg := index cond "message" in
          if ifaceEqString t "Ready" then
            if ifaceEqString s "True" then (true, out)
            else
              scanReady namespace name conds'
                (out ++ ["resource " +:+ namespace +:+ "/" +:+ name +:+
                         " not ready: " +:+ fmt.v msg +:+ newline])
          else scanReady namespace name conds' out
      | _ => scanReady namespace name conds' out
      end
  end.

(** The condition closure of [WaitForESOResourceReady] (lines 577-606). *)
Definition esoCondition (namespace name : string)
    : wait.ConditionFunc (A := response (gmap string value))
                         (S := list string) :=
  λ got out,
    match got with
    | inl _ => ((false, None), out)
    | inr u =>
        let '(conds, found, err) :=
          unstructured.NestedSlice u ["status"; "conditions"] in
        if bool_decide (is_Some err) || negb found then ((false, None), out)
        else
          let '(done, out') := scanReady namespace name conds out in
          ((done, None), out')
    end.

(** Lines 570-607: the [error] returned, with the lines printed on the
    way. *)
Definition WaitForESOResourceReady (namespace name : string)
    (cause : error) (first : response (gmap string value))
    (later : list (response (gmap string value)))
    : option error * list string :=
  wait.PollUntilContextTimeout (esoCondition namespace name) cause
    first later [].

(** *** WaitForExternalSecretsConfigReady *)

(** The two variables captured by the condition closure (line 626); [None]
    is the [nil] map. *)
Record lastConditions : Type :=
  { lastReadyCondition : option (gmap string value);
    lastDegradedCondition : option (gmap string value) }.

Definition noConditions : lastConditions :=
  {| lastReadyCondition := None; lastDegradedCondition := None |}.

(** The body of the loop over [conds] (lines 642-655). *)
Definition recordCondition (last : lastConditions) (c : value)
    : lastConditions :=
  match c with
  | VMap cond =>
      let condType := assertString (index cond "type") in
      if String.eqb condType "Ready" then
        {| lastReadyCondition := Some cond;
           lastDegradedCondition := lastDegradedCondition last |}
      else if String.eqb condType "Degraded" then
        {| lastReadyCondition := lastReadyCondition last;
           lastDegradedCondition := Some cond |}
      else last
  | _ => last
  end.

(** The error of line 664. *)
Definition degradedError (name : string) (degraded : gmap string value)
    : error :=
  errorString ("ExternalSecretsConfig " +:+ name +:+ " is degraded: " +:+
               fmt.v (index degraded "message")).

(** The condition closure of [WaitForExternalSecretsConfigReady] (lines
    628-668). *)
Definition configCondition (name : string)
    : wait.ConditionFunc (A := response (gmap string value))
                         (S := lastConditions) :=
  λ got last,
    match got with
    | inl _ => ((false, None), last)
    | inr u =>
        let '(conds, found, err) :=
          unstructured.NestedSlice u ["status"; "conditions"] in
        match err with
        | Some e =>
            ((false,
              Some (wrapError
                      "failed to extract conditions from ExternalSecretsConfig: "
                      e)),
             last)
        | None =>
            if negb found then ((false, None), last)
            else
              let last := foldl recordCondition last conds in
              match lastReadyCondition last, lastDegradedCondition last with
              | Some ready, Some degraded =>
                  if ifaceEqString (index degraded "status") "True" then
                    ((false, Some (degradedError name degraded)), last)
                  else
                    ((ifaceEqString (index ready "status") "True", None),
                     last)
              | _, _ => ((false, None), last)
              end
        end
    end.

(** [fmt.Sprintf("%v (reason: %v, message: %v)", ...)] of a recorded
    condition, or "not set". *)
Definition describe (last : option (gmap string value)) : string :=
  match last with
  | None => "not set"
  | Some cond =>
      fmt.v (index cond "status") +:+ " (reason: " +:+
      fmt.v (index cond "reason") +:+ ", message: " +:+
      fmt.v (index cond "message") +:+ ")"
  end.

(** The error of lines 682-683. *)
Definition timeoutError (name : string) (last : lastConditions) : error :=
  errorString ("timeout waiting for ExternalSecretsConfig " +:+ name +:+
               " to be ready: Ready=" +:+
               describe (lastReadyCondition last) +:+
               ", Degraded=" +:+
               describe (lastDegradedCondition last)).

(** The call of [wait.PollUntilContextTimeout] inside
    [WaitForExternalSecretsConfigReady], with the final contents of the
    captured variables. *)
Definition pollExternalSecretsConfig (name : string) (cause : error)
    (first : response (gmap string value))
    (later : list (response (gmap string value)))
    : option error * lastConditions :=
  wait.PollUntilContextTimeout (configCondition name) cause first later
    noConditions.

(** Lines 620-687. *)
Definition WaitForExternalSecretsConfigReady (name : string)
    (cause : error) (first : response (gmap string value))
    (later : list (response (gmap string value))) : option error :=
  let '(err, last) := pollExternalSecretsConfig name cause first later in
  match err with
  | Some e =>
      if wait.Interrupted e then Some (timeoutError name last) else err
  | None => err
  end.

(** *** The AWS helpers *)

Import awssdk.

Definition awsCredSecretName : string := "aws-creds".
Definition awsCredNamespace : string := "kube-system".
Definition awsCredAccessKeySecretKeyName : string := "aws_secret_access_key".
Definition awsCredKeyIdSecretKeyName : string := "aws_access_key_id".

(** The requests that the AWS helpers send: the [Get] of a secret of the
    cluster, [session.NewSession] with a configuration, and [DeleteSecret]
    on the service client of the session made from a configuration. *)
Inductive call : Type :=
| GetSecretCall (namespace name : string)
| NewSessionCall (config : Config)
| DeleteSecretCall (config : Config) (input : DeleteSecretInput).

(** Lines 689-697, with the requests sent, in order.  [getSecret namespace
    name] is what [k8sClient.CoreV1().Secrets(namespace).Get(ctx, name, ...)]
    returns: an error or the [Data] of the secret; [string(cred.Data[key])]
    of a missing key is the empty string. *)
Definition fetchAWSCreds
    (getSecret : string → string → response (gmap string string))
    : string * string * option error * list call :=
  let calls := [GetSecretCall awsCredNamespace awsCredSecretName] in
  match getSecret awsCredNamespace awsCredSecretName with
  | inl err => ("", "", Some err, calls)
  | inr data =>
      (default "" (data !! awsCredKeyIdSecretKeyName),
       default "" (data !! awsCredAccessKeySecretKeyName),
       None, calls)
  end.

(** Lines 699-725: the error returned and the requests sent, in order.
    [newSession config] is the error of [session.NewSession], and
    [deleteSecret config input] the error of [DeleteSecret] on the service
    client of the session made from [config]. *)
Definition DeleteAWSSecret
    (getSecret : string → string → response (gmap string string))
    (newSession : Config → option error)
    (deleteSecret : Config → DeleteSecretInput → option error)
    (secretName region : string) : option error * list call :=
  let '(id, key, err, calls) := fetchAWSCreds getSecret in
  match err with
  | Some e => (Some e, calls)
  | None =>
      let config :=
        {| AccessKeyID := id; SecretAccessKey := key; Region := region |} in
      let calls := calls ++ [NewSessionCall config] in
      match newSession config with
      | Some e => (Some (wrapError "failed to create AWS session: " e), calls)
      | None =>
          let input :=
            {| SecretId := secretName; ForceDeleteWithoutRecovery := true |} in
          let calls := calls ++ [DeleteSecretCall config input] in
          match deleteSecret config input with
          | Some e =>
              (Some (wrapError "failed to delete AWS secret: " e), calls)
          | None => (None, calls)
          end
      end
  end.

(** *** Assets and random names *)

(** Lines 727-730; [readFile] is [os.ReadFile]. *)
Definition ReadExpectedSecretValue (readFile : string → response string)
    (assetName : string) : response string :=
  readFile assetName.

Definition chars : string := "abcdefghijklmnopqrstuvwxyz0123456789".

(** The loop over the indexes of [buffer], from index [k] on, with [n]
    indexes left; [intn k] is what the [k]-th call of
    [seed.Intn(len(chars))] returns, and indexing [chars] out of range
    panics ([None]). *)
Fixpoint fillBuffer (intn : nat → nat) (k n : nat) : option string :=
  match n with
  | O => Some ""
  | S n' =>
      match String.get (intn k) chars, fillBuffer intn (S k) n' with
      | Some c, Some rest => Some (String c rest)
      | _, _ => None
      end
  end.

(** The largest allocation the Go runtime accepts on the 64-bit platforms
    the Makefile builds for ([maxAlloc] of the runtime, 2^48 bytes). *)
Definition maxAlloc : Z := 2 ^ 48.

(** Lines 733-741.  [strLen] is a Go [int]; [None] is a call that does not
    return: [make([]byte, strLen)] panics ("makeslice: len out of range") on
    a negative length and on a length above [maxAlloc], and the runtime stops
    with "out of memory" when the allocations for a string of [strLen] bytes
    do not fit in what memory is left ([fits strLen] is [false]). *)
Definition GetRandomString (fits : Z → bool) (intn : nat → nat) (strLen : Z)
    : option string :=
  if (strLen <? 0)%Z || (maxAlloc <? strLen)%Z then None
  else if fits strLen then fillBuffer intn 0 (Z.to_nat strLen)
  else None.

(** Lines 743-754: the function that [ReplacePatternInAsset] returns,
    applied to [assetName].  The replacer is built after the file is read;
    [None] is the panic of [strings.NewReplacer]. *)
Definition ReplacePatternInAsset (readFile : string → response string)
    (replacePatternString : list string) (assetName : string)
    : option (response string) :=
  match readFile assetName with
  | inl err => Some (inl err)
  | inr fileContent =>
      match gostrings.NewReplacer replacePatternString with
      | Some replacer => Some (inr (gostrings.Replace replacer fileContent))
      | None => None
      end
  end.
End utils.

(** * Vocabulary of the statements *)

Import corev1 utils.

Section Runs.
Context {A S : Type}.

(** The captured state left by a run of ticks on which the condition asked,
    every time, to keep polling ([(false, nil)]); [None] when one of them
    ended the wait. *)
Fixpoint pending (condition : wait.ConditionFunc (A := A) (S := S))
    (ticks : list A) (s : S) : option S :=
  match ticks with
  | [] => Some s
  | a :: ticks' =>
      match condition a s with
      | ((false, None), s') => pending condition ticks' s'
      | _ => None
      end
  end.

(** The verdicts of the successive probes of a run, up to and including
    the one that ends the wait. *)
Fixpoint verdicts (condition : wait.ConditionFunc (A := A) (S := S))
    (ticks : list A) (s : S) : list wait.verdict :=
  match ticks with
  | [] => []
  | a :: ticks' =>
      let '((ok, err), s') := condition a s in
      (ok, err) ::
      (if bool_decide (is_Some err) || ok then []
       else verdicts condition ticks' s')
  end.
End Runs.

(** The condition entries a tick lets a waiter see: those of
    [status.conditions] when the fetch succeeded and the field is a list. *)
Definition entriesOf (got : response (gmap string value)) : list value :=
  match got with
  | inl _ => []
  | inr u =>
      match unstructured.NestedSlice u ["status"; "conditions"] with
      | (conds, true, None) => conds
      | _ => []
      end
  end.

(** A well-shaped entry (a string-keyed map) as opposed to a malformed one. *)
Definition wellShaped (c : value) : bool :=
  match c with
  | VMap _ => true
  | _ => false
  end.

(** The entry, when it is a condition of type [ty]. *)
Definition ofType (ty : string) (c : value) : option (gmap string value) :=
  match c with
  | VMap cond =>
      if String.eqb (assertString (index cond "type")) ty then Some cond
      else None
  | _ => None
  end.

(** The conditions of type [ty] observed over a run, oldest first. *)
Definition observations (ty : string)
    (ticks : list (response (gmap string value)))
    : list (gmap string value) :=
  omap (ofType ty) (ticks ≫= entriesOf).

(** An entry that reports Ready with status True. *)
Definition readyTrue (c : value) : bool :=
  match c with
  | VMap cond =>
      ifaceEqString (index cond "type") "Ready"
      && ifaceEqString (index cond "status") "True"
  | _ => false
  end.

(** A tick on which the fetched resource shows Ready=True. *)
Definition showsReady (got : response (gmap string value)) : bool :=
  existsb readyTrue (entriesOf got).

(** A pod condition list holds a condition [ty] with status True. *)
Definition hasTrue (ty : string) (conds : list PodCondition) : bool :=
  existsb (λ c, String.eqb (Type' c) ty && String.eqb (Status' c) ConditionTrue)
          conds.

(** The pod name matches one of the expected prefixes. *)
Definition expected (prefixes : list string) (pod : Pod) : bool :=
  existsb (gostrings.HasPrefix (Name pod)) prefixes.

(** * Example resources and listings *)

(** A condition entry with the two fields the waiters read. *)
Definition condition (ty status : string) : value :=
  VMap {[ "type" := VString ty; "status" := VString status ]}.

(** A condition entry as the operator writes it. *)
Definition conditionWith (ty status reason message : string) : value :=
  VMap {[ "type" := VString ty; "status" := VString status;
          "reason" := VString reason; "message" := VString message ]}.

(** A fetched object whose [status.conditions] is [conds]. *)
Definition withConditions (conds : list value) : gmap string value :=
  {[ "status" := VMap {[ "conditions" := VSlice conds ]} ]}.

(** A fetched object that has no status yet. *)
Definition noStatus : gmap string value :=
  {[ "metadata" := VMap {[ "name" := VString "cluster" ]} ]}.

(** A pod in phase Running whose two conditions are True. *)
Definition runningPod (name : string) : Pod :=
  {| Name := name;
     Status :=
       {| Phase := "Running";
          Conditions :=
            [ {| Type' := "Ready"; Status' := "True" |};
              {| Type' := "ContainersReady"; Status' := "True" |} ] |} |}.

(** A pod that is still starting. *)
Definition pendingPod (name : string) : Pod :=
  {| Name := name;
     Status :=
       {| Phase := "Pending";
          Conditions := [ {| Type' := "Ready"; Status' := "False" |} ] |} |}.

(** A listing without the pods that match no prefix. *)
Definition expectedOnly (prefixes : list string)
    (listed : response (list Pod)) : response (list Pod) :=
  match listed with
  | inl err => inl err
  | inr items => inr (filter (expected prefixes) items)
  end.

(** A line that [WaitForESOResourceReady] prints for a condition. *)
Definition notReadyLine (namespace name : string)
    (cond : gmap string value) : string :=
  "resource " +:+ namespace +:+ "/" +:+ name +:+ " not ready: " +:+
  fmt.v (index cond "message") +:+ newline.

(** A build of the operator. *)
Definition exampleBuild : version.vars :=
  {| version.commitFromGit := "9fceb02d0ae598e95dc970b74767f19372d61af8";
     version.versionFromGit := "v1.1.0";
     version.majorFromGit := "1";
     version.minorFromGit := "1";
     version.buildDate := "2025-06-01T00:00:00Z" |}.

(** A cluster that holds only the AWS credentials secret. *)
Definition credsOnly (data : gmap string string)
    (namespace name : string) : response (gmap string string) :=
  if String.eqb namespace "kube-system" && String.eqb name "aws-creds"
  then inr data
  else inl (statusError "NotFound").

(** * The poller *)

Section PollFacts.
Context {A S : Type}.
Implicit Types (condition : wait.ConditionFunc (A := A) (S := S)).
Implicit Types (ticks pre post later : list A) (s : S).

Lemma poll_as_loop condition cause first later s :
  wait.PollUntilContextTimeout condition cause first later s
  = wait.loopConditionUntilContext condition cause (first :: later) s.
Proof. reflexivity. Qed.

(** Ticks that ask to keep polling only hand their state on. *)
Lemma loop_pending condition cause pre post s s' :
  pending condition pre s = Some s' →
  wait.loopConditionUntilContext condition cause (pre ++ post) s
  = wait.loopConditionUntilContext condition cause post s'.
Proof.
  revert s. induction pre as [|a pre IH]; intros s Hpre; simpl in *.
  - by simplify_eq.
  - destruct (condition a s) as [[[] [e|]] s1]; try done.
    simpl. by apply IH.
Qed.

(** A verdict with an error or with [ok] ends the wait at that tick. *)
Lemma loop_stop condition cause a post s ok err s' :
  condition a s = ((ok, err), s') →
  is_Some err ∨ ok = true →
  wait.loopConditionUntilContext condition cause (a :: post) s = (err, s').
Proof.
  intros Hc Hstop. simpl. rewrite Hc.
  destruct Hstop as [[e ->]| ->]; simpl; [done|].
  by rewrite orb_true_r.
Qed.

(** When no tick ends the wait, the context does. *)
Lemma loop_exhausted condition cause ticks s s' :
  pending condition ticks s = Some s' →
  wait.loopConditionUntilContext condition cause ticks s = (Some cause, s').
Proof.
  intros Hp. rewrite <- (app_nil_r ticks).
  by rewrite (loop_pending _ _ _ _ _ _ Hp).
Qed.

(** Every run either exhausts its ticks or stops at one of them. *)
Lemma loop_inv condition cause ticks s r s' :
  wait.loopConditionUntilContext condition cause ticks s = (r, s') →
  (pending condition ticks s = Some s' ∧ r = Some cause)
  ∨ ∃ pre a post s0 ok,
      ticks = pre ++ a :: post
      ∧ pending condition pre s = Some s0
      ∧ condition a s0 = ((ok, r), s')
      ∧ (is_Some r ∨ ok = true).
Proof.
  revert s. induction ticks as [|a ticks IH]; intros s Hrun; simpl in *.
  - left. by simplify_eq.
  - destruct (condition a s) as [[ok err] s1] eqn:Hc.
    destruct err as [e|]; simpl in Hrun.
    + simplify_eq. right. exists [], a, ticks, s, ok. eauto.
    + destruct ok; simpl in Hrun.
      * simplify_eq. right. exists [], a, ticks, s, true. eauto.
      * destruct (IH _ Hrun) as [[Hp ->]|(pre & b & post & s0 & ok & -> & Hp & Hb & Hstop)].
        -- by left.
        -- right. exists (a :: pre), b, post, s0, ok.
           simpl. rewrite Hc. eauto.
Qed.

(** A tick that changes nothing and asks to keep polling may be dropped. *)
Lemma loop_skip condition cause pre a post s :
  (∀ s0, condition a s0 = ((false, None), s0)) →
  wait.loopConditionUntilContext condition cause (pre ++ a :: post) s
  = wait.loopConditionUntilContext condition cause (pre ++ post) s.
Proof.
  intros Ha. revert s. induction pre as [|b pre IH]; intros s; simpl.
  - by rewrite Ha.
  - destruct (condition b s) as [[ok err] s1].
    destruct (bool_decide (is_Some err) || ok); [done|]. apply IH.
Qed.

(** Two ticks with the same effect are interchangeable in a run. *)
Lemma loop_replace condition cause pre a b post s :
  (∀ s0, condition a s0 = condition b s0) →
  wait.loopConditionUntilContext condition cause (pre ++ a :: post) s
  = wait.loopConditionUntilContext condition cause (pre ++ b :: post) s.
Proof.
  intros Hab. revert s. induction pre as [|c pre IH]; intros s; simpl.
  - by rewrite Hab.
  - destruct (condition c s) as [[ok err] s1].
    destruct (bool_decide (is_Some err) || ok); [done|]. apply IH.
Qed.
End PollFacts.

(** * The captured conditions of the dual-condition waiter *)

Lemma ofType_Some ty c cond :
  ofType ty c = Some cond →
  c = VMap cond ∧ assertString (index cond "type") = ty.
Proof.
  destruct c; simpl; try done.
  destruct (String.eqb_spec (assertString (index m "type")) ty); naive_solver.
Qed.

Lemma recordCondition_ready acc c :
  lastReadyCondition (recordCondition acc c)
  = match ofType "Ready" c with
    | Some cond => Some cond
    | None => lastReadyCondition acc
    end.
Proof.
  destruct c; simpl; try done.
  destruct (String.eqb (assertString (index m "type")) "Ready"); [done|].
  by destruct (String.eqb (assertString (index m "type")) "Degraded").
Qed.

Lemma recordCondition_degraded acc c :
  lastDegradedCondition (recordCondition acc c)
  = match ofType "Degraded" c with
    | Some cond => Some cond
    | None => lastDegradedCondition acc
    end.
Proof.
  destruct c; simpl; try done.
  destruct (String.eqb_spec (assertString (index m "type")) "Ready") as [->|];
    [done|].
  by destruct (String.eqb (assertString (index m "type")) "Degraded").
Qed.

(** After the loop over [conds], each variable holds the last entry of its
    type, or what it held before when there is none. *)
Lemma scan_ready acc conds :
  lastReadyCondition (foldl recordCondition acc conds)
  = match last (omap (ofType "Ready") conds) with
    | Some cond => Some cond
    | None => lastReadyCondition acc
    end.
Proof.
  revert acc. induction conds as [|c conds IH]; intros acc; simpl; [done|].
  rewrite IH, recordCondition_ready.
  destruct (ofType "Ready" c) as [cond|]; [|done].
  rewrite last_cons. by destruct (last _).
Qed.

Lemma scan_degraded acc conds :
  lastDegradedCondition (foldl recordCondition acc conds)
  = match last (omap (ofType "Degraded") conds) with
    | Some cond => Some cond
    | None => lastDegradedCondition acc
    end.
Proof.
  revert acc. induction conds as [|c conds IH]; intros acc; simpl; [done|].
  rewrite IH, recordCondition_degraded.
  destruct (ofType "Degraded" c) as [cond|]; [|done].
  rewrite last_cons. by destruct (last _).
Qed.

(** Whatever its verdict, a probe leaves the variables as the loop over the
    entries it saw leaves them. *)
Lemma configCondition_state name got acc :
  (configCondition name got acc).2 = foldl recordCondition acc (entriesOf got).
Proof.
  destruct got as [e|u]; simpl; [done|].
  destruct (unstructured.NestedSlice u _) as [[conds found] [e|]]; simpl;
    [by destruct found|].
  destruct found; simpl; [|done].
  by repeat case_match.
Qed.

Lemma config_pending_state name ticks acc acc' :
  pending (configCondition name) ticks acc = Some acc' →
  acc' = foldl recordCondition acc (ticks ≫= entriesOf).
Proof.
  revert acc. induction ticks as [|got ticks IH]; intros acc Hp; simpl in *.
  - by simplify_eq.
  - rewrite foldl_app, <- (configCondition_state name).
    destruct (configCondition name got acc) as [[[] [e|]] acc1]; try done.
    by apply IH.
Qed.

(** The verdict of a probe, read off the variables after its loop. *)
Lemma configCondition_found name u conds acc :
  unstructured.NestedSlice u ["status"; "conditions"] = (conds, true, None) →
  configCondition name (inr u) acc
  = let acc' := foldl recordCondition acc conds in
    (match lastReadyCondition acc', lastDegradedCondition acc' with
     | Some ready, Some degraded =>
         if ifaceEqString (index degraded "status") "True"
         then (false, Some (degradedError name degraded))
         else (ifaceEqString (index ready "status") "True", None)
     | _, _ => (false, None)
     end, acc').
Proof.
  intros Hu. unfold configCondition. rewrite Hu. simpl.
  by repeat case_match.
Qed.

(** A verdict [ok] needs both variables set, Ready True and Degraded not. *)
Lemma configCondition_ok name got acc err acc' :
  configCondition name got acc = ((true, err), acc') →
  err = None
  ∧ ∃ ready degraded,
      lastReadyCondition acc' = Some ready
      ∧ lastDegradedCondition acc' = Some degraded
      ∧ ifaceEqString (index ready "status") "True" = true
      ∧ ifaceEqString (index degraded "status") "True" = false.
Proof.
  destruct got as [e|u]; simpl; [done|].
  destruct (unstructured.NestedSlice u _) as [[conds found] [e|]]; simpl;
    [done|].
  destruct found; simpl; [|done].
  destruct (lastReadyCondition (foldl _ _ _)) as [ready|] eqn:Hr; [|done].
  destruct (lastDegradedCondition (foldl _ _ _)) as [degraded|] eqn:Hd;
    [|done].
  destruct (ifaceEqString (index degraded _) _) eqn:Hs; [done|].
  intros [= Hok <- <-]. rewrite Hr, Hd. eauto 10.
Qed.

(** Started from the two [nil] maps, the variables hold the last observation
    of each type. *)
Lemma scan_from_nil conds :
  lastReadyCondition (foldl recordCondition noConditions conds)
  = last (omap (ofType "Ready") conds)
  ∧ lastDegradedCondition (foldl recordCondition noConditions conds)
    = last (omap (ofType "Degraded") conds).
Proof.
  rewrite scan_ready, scan_degraded. simpl.
  split; by destruct (last _).
Qed.

Lemma config_run_state name pre got acc :
  pending (configCondition name) pre noConditions = Some acc →
  lastReadyCondition (configCondition name got acc).2
  = last (observations "Ready" (pre ++ [got]))
  ∧ lastDegradedCondition (configCondition name got acc).2
    = last (observations "Degraded" (pre ++ [got])).
Proof.
  intros Hp. apply config_pending_state in Hp as ->.
  rewrite configCondition_state, <- foldl_app.
  unfold observations. rewrite bind_app. simpl. rewrite app_nil_r.
  apply scan_from_nil.
Qed.

Lemma config_exhausted_state name ticks acc :
  pending (configCondition name) ticks noConditions = Some acc →
  lastReadyCondition acc = last (observations "Ready" ticks)
  ∧ lastDegradedCondition acc = last (observations "Degraded" ticks).
Proof.
  intros Hp. apply config_pending_state in Hp as ->. apply scan_from_nil.
Qed.


(** * Fail-fast on Degraded *)




(** * Success of the dual-condition waiter *)

Lemma observations_app ty ticks1 ticks2 :
  observations ty (ticks1 ++ ticks2)
  = observations ty ticks1 ++ observations ty ticks2.
Proof. unfold observations. by rewrite bind_app, omap_app. Qed.

(** A [nil] result comes from a probe that answered [ok]. *)
Lemma config_success_inv name cause first later :
  WaitForExternalSecretsConfigReady name cause first later = None →
  ∃ pre got post ready degraded,
    first :: later = pre ++ got :: post
    ∧ (pollExternalSecretsConfig name cause first later).2
      = {| lastReadyCondition := Some ready;
           lastDegradedCondition := Some degraded |}
    ∧ last (observations "Ready" (pre ++ [got])) = Some ready
    ∧ last (observations "Degraded" (pre ++ [got])) = Some degraded
    ∧ ifaceEqString (index ready "status") "True" = true
    ∧ ifaceEqString (index degraded "status") "True" = false.
Proof.
  unfold WaitForExternalSecretsConfigReady, pollExternalSecretsConfig.
  rewrite poll_as_loop.
  destruct (wait.loopConditionUntilContext _ _ _ _) as [[e|] acc] eqn:Hrun;
    [by destruct (wait.Interrupted e)|].
  intros _.
  apply loop_inv in Hrun
    as [[_ ?]|(pre & got & post & s0 & ok & Hticks & Hp & Hc & [[? ?]| ->])];
    try done.
  destruct (configCondition_ok _ _ _ _ _ Hc)
    as (_ & ready & degraded & Hr & Hd & Hrs & Hds).
  destruct (config_run_state name pre got s0 Hp) as [Hr' Hd'].
  rewrite Hc in Hr', Hd'. simpl in Hr', Hd'.
  exists pre, got, post, ready, degraded. simpl.
  destruct acc as [r d]. simpl in *. subst r d.
  repeat split; try done; congruence.
Qed.

(** C2: [WaitForExternalSecretsConfigReady] returns [nil] only when, over the
    ticks polled so far, both a Ready and a Degraded condition have been
    observed (both captured variables are set), the last Ready observed has
    status True and the last Degraded observed does not; so a resource that
    never reports a Degraded condition never yields success, whatever it
    reports for Ready. *)
Theorem success_requires_both_observed name cause first later :
  (WaitForExternalSecretsConfigReady name cause first later = None →
   ∃ pre got post ready degraded,
     first :: later = pre ++ got :: post
     ∧ (pollExternalSecretsConfig name cause first later).2
       = {| lastReadyCondition := Some ready;
            lastDegradedCondition := Some degraded |}
     ∧ last (observations "Ready" (pre ++ [got])) = Some ready
     ∧ last (observations "Degraded" (pre ++ [got])) = Some degraded
     ∧ ifaceEqString (index ready "status") "True" = true
     ∧ ifaceEqString (index degraded "status") "True" = false)
  ∧ (observations "Degraded" (first :: later) = [] →
     WaitForExternalSecretsConfigReady name cause first later ≠ None).
Proof.
  split; [apply config_success_inv|].
  intros Hnever Hok.
  apply config_success_inv in Hok
    as (pre & got & post & ready & degraded & Hticks & _ & _ & Hd & _).
  rewrite Hticks, (cons_middle got), app_assoc, observations_app in Hnever.
  apply app_eq_nil in Hnever as [Hnever _].
  by rewrite Hnever in Hd.
Qed.

(** A run that succeeds at its third tick, and a resource that reports
    Ready=True from the first tick on but never a Degraded condition. *)
Lemma success_requires_both_observed_witness :
  (∃ pre got post ready degraded,
     [inr noStatus;
      inr (withConditions [condition "Ready" "True"]);
      inr (withConditions [condition "Ready" "True";
                           condition "Degraded" "False"])]
     = pre ++ got :: post
     ∧ (pollExternalSecretsConfig "cluster" context.DeadlineExceeded
          (inr noStatus)
          [inr (withConditions [condition "Ready" "True"]);
           inr (withConditions [condition "Ready" "True";
                                condition "Degraded" "False"])]).2
       = {| lastReadyCondition := Some ready;
            lastDegradedCondition := Some degraded |}
     ∧ last (observations "Ready" (pre ++ [got])) = Some ready
     ∧ last (observations "Degraded" (pre ++ [got])) = Some degraded
     ∧ ifaceEqString (index ready "status") "True" = true
     ∧ ifaceEqString (index degraded "status") "True" = false)
  ∧ WaitForExternalSecretsConfigReady "cluster" context.DeadlineExceeded
      (inr (withConditions [condition "Ready" "True"]))
      [inr (withConditions [condition "Ready" "True"]);
       inr (withConditions [condition "Ready" "True"])]
    ≠ None.
Proof.
  split.
  - apply (proj1 (success_requires_both_observed "cluster"
                    context.DeadlineExceeded (inr noStatus)
                    [inr (withConditions [condition "Ready" "True"]);
                     inr (withConditions [condition "Ready" "True";
                                          condition "Degraded" "False"])])).
    vm_compute. reflexivity.
  - apply (proj2 (success_requires_both_observed "cluster"
                    context.DeadlineExceeded
                    (inr (withConditions [condition "Ready" "True"]))
                    [inr (withConditions [condition "Ready" "True"]);
                     inr (withConditions [condition "Ready" "True"])])).
    vm_compute. reflexivity.
Defined.

(** * The timeout diagnostic *)

(** C7: when every tick asked to keep polling and the deadline then elapses,
    [WaitForExternalSecretsConfigReady] returns the timeout error, whose text
    holds, for Ready and for Degraded, the status, reason and message of the
    last condition of that type observed during the wait, or "not set" when
    none was observed. *)
Theorem timeout_reports_last_observed name first later :
  is_Some (pending (configCondition name) (first :: later) noConditions) →
  let shown (observed : option (gmap string value)) : string :=
    match observed with
    | None => "not set"
    | Some cond =>
        fmt.v (index cond "status") +:+ " (reason: " +:+
        fmt.v (index cond "reason") +:+ ", message: " +:+
        fmt.v (index cond "message") +:+ ")"
    end in
  WaitForExternalSecretsConfigReady name context.DeadlineExceeded first later
  = Some (errorString
            ("timeout waiting for ExternalSecretsConfig " +:+ name +:+
             " to be ready: Ready=" +:+
             shown (last (observations "Ready" (first :: later))) +:+
             ", Degraded=" +:+
             shown (last (observations "Degraded" (first :: later))))).
Proof.
  intros [acc Hp] shown.
  unfold WaitForExternalSecretsConfigReady, pollExternalSecretsConfig.
  rewrite poll_as_loop, (loop_exhausted _ _ _ _ _ Hp). simpl.
  destruct (config_exhausted_state _ _ _ Hp) as [<- <-].
  reflexivity.
Qed.

(** A wait that saw Ready=False twice and never a Degraded condition. *)
Lemma timeout_reports_last_observed_witness :
  WaitForExternalSecretsConfigReady "cluster" context.DeadlineExceeded
    (inr noStatus)
    [inr (withConditions
            [conditionWith "Ready" "False" "Progressing" "rolling out"]);
     inl (statusError "etcdserver: request timed out");
     inr (withConditions
            [conditionWith "Ready" "False" "Progressing" "almost there"])]
  = Some (errorString
            ("timeout waiting for ExternalSecretsConfig cluster to be ready: " +:+
             "Ready=False (reason: Progressing, message: almost there), " +:+
             "Degraded=not set")).
Proof.
  etransitivity.
  { apply (timeout_reports_last_observed "cluster" (inr noStatus)
             [inr (withConditions
                     [conditionWith "Ready" "False" "Progressing"
                        "rolling out"]);
              inl (statusError "etcdserver: request timed out");
              inr (withConditions
                     [conditionWith "Ready" "False" "Progressing"
                        "almost there"])]).
    vm_compute. eauto. }
  vm_compute. reflexivity.
Defined.

(** * The example scenario *)

(** C8: over the snapshots [no conditions], [{Ready:Unknown}],
    [{Ready:False, Degraded:False}], [{Ready:True, Degraded:False}] the probe
    asks to keep polling at ticks 1 to 3 and answers done at tick 4, where
    the wait returns [nil]; "no conditions" is a resource without status or
    one with an empty condition list. *)
Theorem example_scenario name cause rest :
  let t2 := inr (withConditions [condition "Ready" "Unknown"]) in
  let t3 := inr (withConditions [condition "Ready" "False";
                                 condition "Degraded" "False"]) in
  let t4 := inr (withConditions [condition "Ready" "True";
                                 condition "Degraded" "False"]) in
  let holds t1 :=
    verdicts (configCondition name) (t1 :: t2 :: t3 :: t4 :: rest) noConditions
    = [(false, None); (false, None); (false, None); (true, None)]
    ∧ WaitForExternalSecretsConfigReady name cause t1 (t2 :: t3 :: t4 :: rest)
      = None in
  holds (inr noStatus) ∧ holds (inr (withConditions [])).
Proof. repeat split; vm_compute; reflexivity. Qed.

(** * The single-condition waiter *)

Lemma ifaceEqString_true v lit :
  ifaceEqString v lit = true ↔ v = VString lit.
Proof.
  destruct v; simpl; try (split; [done|by intros [=]]).
  rewrite String.eqb_eq. naive_solver.
Qed.

Lemma readyTrue_spec c :
  readyTrue c = true
  ↔ ∃ cond, c = VMap cond
            ∧ index cond "type" = VString "Ready"
            ∧ index cond "status" = VString "True".
Proof.
  destruct c; simpl; try (split; [done|]; intros (? & ? & _); done).
  rewrite andb_true_iff, !ifaceEqString_true. split.
  - intros [Ht Hs]. eauto.
  - intros (cond & Hc & Ht & Hs). by simplify_eq.
Qed.

(** The loop over the entries answers done exactly when one of them reports
    Ready with status True. *)
Lemma scanReady_done namespace name conds out :
  (scanReady namespace name conds out).1 = existsb readyTrue conds.
Proof.
  revert out. induction conds as [|c conds IH]; intros out; simpl; [done|].
  destruct c; simpl; try apply IH.
  destruct (ifaceEqString (index m "type") "Ready"); simpl; [|apply IH].
  destruct (ifaceEqString (index m "status") "True"); simpl; [done|apply IH].
Qed.

Lemma esoCondition_verdict namespace name got out :
  (esoCondition namespace name got out).1 = (showsReady got, None).
Proof.
  unfold showsReady, entriesOf. destruct got as [e|u]; simpl; [done|].
  destruct (unstructured.NestedSlice u _) as [[conds found] [e|]]; simpl;
    [by destruct found|].
  destruct found; simpl; [|done].
  pose proof (scanReady_done namespace name conds out) as Hscan.
  destruct (scanReady namespace name conds out) as [done out']. simpl in *.
  by subst.
Qed.

Lemma eso_loop_result namespace name cause ticks out :
  (wait.loopConditionUntilContext (esoCondition namespace name) cause ticks
     out).1
  = if existsb showsReady ticks then None else Some cause.
Proof.
  revert out. induction ticks as [|got ticks IH]; intros out; simpl; [done|].
  pose proof (esoCondition_verdict namespace name got out) as Hv.
  destruct (esoCondition namespace name got out) as [[ok err] out'].
  simpl in Hv. injection Hv as -> ->. simpl.
  destruct (showsReady got); simpl; [done|apply IH].
Qed.

(** C6: in [WaitForESOResourceReady] a probe never returns an error, and it
    answers done exactly when the fetch succeeded, the conditions field is
    present and one entry has type "Ready" and status "True"; on every other
    tick (fetch error, conditions absent, no Ready entry, Ready with another
    status) it asks to retry.  The wait returns [nil] exactly when some tick
    polled before the context is done shows Ready=True, and [ctx.Err()]
    otherwise; a fetch that fails N times and then shows Ready=True yields
    [nil]. *)
Theorem single_condition_waiter namespace name cause first later :
  (∀ got out,
     (esoCondition namespace name got out).1 = (showsReady got, None))
  ∧ (∀ got,
       showsReady got = true
       ↔ ∃ u conds cond,
           got = inr u
           ∧ unstructured.NestedSlice u ["status"; "conditions"]
             = (conds, true, None)
           ∧ VMap cond ∈ conds
           ∧ index cond "type" = VString "Ready"
           ∧ index cond "status" = VString "True")
  ∧ (WaitForESOResourceReady namespace name cause first later).1
    = (if existsb showsReady (first :: later) then None else Some cause)
  ∧ (∀ errs u rest,
       first :: later = (inl <$> errs) ++ inr u :: rest →
       showsReady (inr u) = true →
       (WaitForESOResourceReady namespace name cause first later).1 = None).
Proof.
  split; [intros; apply esoCondition_verdict|].
  split.
  { intros got. unfold showsReady. rewrite existsb_exists. split.
    - intros (c & Hin & Hc). apply readyTrue_spec in Hc as (cond & -> & Ht & Hs).
      apply list_elem_of_In in Hin.
      destruct got as [e|u]; simpl in Hin; [by apply elem_of_nil in Hin|].
      destruct (unstructured.NestedSlice u _) as [[conds found] err] eqn:Hu.
      destruct found, err; try by apply elem_of_nil in Hin.
      exists u, conds, cond. eauto.
    - intros (u & conds & cond & -> & Hu & Hin & Ht & Hs).
      exists (VMap cond). split.
      + apply list_elem_of_In. unfold entriesOf. by rewrite Hu.
      + apply readyTrue_spec. eauto. }
  assert ((WaitForESOResourceReady namespace name cause first later).1
          = (if existsb showsReady (first :: later) then None else Some cause))
    as Hresult.
  { unfold WaitForESOResourceReady. rewrite poll_as_loop.
    apply eso_loop_result. }
  split; [done|].
  intros errs u rest Hticks Hready. rewrite Hresult, Hticks.
  rewrite existsb_app. simpl. rewrite Hready.
  by rewrite orb_true_r.
Qed.

(** The resource is not found twice and then reports Ready=True. *)
Lemma single_condition_waiter_witness :
  (WaitForESOResourceReady "demo" "aws-store" context.DeadlineExceeded
     (inl (statusError "NotFound"))
     [inl (statusError "NotFound");
      inr (withConditions [condition "Ready" "True"])]).1
  = None.
Proof.
  apply (proj2 (proj2 (proj2
           (single_condition_waiter "demo" "aws-store"
              context.DeadlineExceeded (inl (statusError "NotFound"))
              [inl (statusError "NotFound");
               inr (withConditions [condition "Ready" "True"])])))
           [statusError "NotFound"; statusError "NotFound"]
           (withConditions [condition "Ready" "True"]) []).
  - reflexivity.
  - vm_compute. reflexivity.
Defined.

(** * Malformed condition entries *)

Lemma scanReady_wellShaped namespace name conds out :
  scanReady namespace name conds out
  = scanReady namespace name (filter wellShaped conds) out.
Proof.
  revert out. induction conds as [|c conds IH]; intros out; [done|].
  destruct c; rewrite ?filter_cons_True, ?filter_cons_False by (simpl; tauto);
    simpl; by rewrite <- ?IH.
Qed.

Lemma recordCondition_wellShaped acc conds :
  foldl recordCondition acc conds
  = foldl recordCondition acc (filter wellShaped conds).
Proof.
  revert acc. induction conds as [|c conds IH]; intros acc; [done|].
  destruct c; rewrite ?filter_cons_True, ?filter_cons_False by (simpl; tauto);
    simpl; by rewrite <- ?IH.
Qed.

(** C9: an entry of [status.conditions] that is not a string-keyed map is
    skipped by both waiters: a probe gives the same verdict and leaves the
    same state as on the snapshot without the malformed entries, and so does
    the whole wait; entries of the wrong shape alone never make a wait
    fail. *)
Theorem malformed_entries_skipped
    namespace name cause u u' conds pre post first later first' later' :
  unstructured.NestedSlice u ["status"; "conditions"] = (conds, true, None) →
  unstructured.NestedSlice u' ["status"; "conditions"]
  = (filter wellShaped conds, true, None) →
  first :: later = pre ++ inr u :: post →
  first' :: later' = pre ++ inr u' :: post →
  (∀ out, esoCondition namespace name (inr u) out
          = esoCondition namespace name (inr u') out)
  ∧ (∀ acc, configCondition name (inr u) acc
            = configCondition name (inr u') acc)
  ∧ WaitForESOResourceReady namespace name cause first later
    = WaitForESOResourceReady namespace name cause first' later'
  ∧ WaitForExternalSecretsConfigReady name cause first later
    = WaitForExternalSecretsConfigReady name cause first' later'.
Proof.
  intros Hu Hu' Hticks Hticks'.
  assert (∀ out, esoCondition namespace name (inr u) out
                 = esoCondition namespace name (inr u') out) as Heso.
  { intros out. unfold esoCondition. rewrite Hu, Hu'. simpl.
    by rewrite <- scanReady_wellShaped. }
  assert (∀ acc, configCondition name (inr u) acc
                 = configCondition name (inr u') acc) as Hconfig.
  { intros acc.
    rewrite (configCondition_found _ _ _ _ Hu),
            (configCondition_found _ _ _ _ Hu').
    by rewrite <- recordCondition_wellShaped. }
  repeat split; try done.
  - unfold WaitForESOResourceReady.
    rewrite !poll_as_loop, Hticks, Hticks'. by apply loop_replace.
  - unfold WaitForExternalSecretsConfigReady, pollExternalSecretsConfig.
    rewrite !poll_as_loop, Hticks, Hticks'.
    by rewrite (loop_replace _ _ _ _ _ _ _ Hconfig).
Qed.

(** A condition list that arrives with a bare string and a number among its
    entries is read as the list of its two well-shaped entries. *)
Lemma malformed_entries_skipped_witness :
  WaitForExternalSecretsConfigReady "cluster" context.DeadlineExceeded
    (inr noStatus)
    [inr (withConditions
            [VString "Ready"; condition "Ready" "True"; VInt 7;
             condition "Degraded" "False"; VNil])]
  = WaitForExternalSecretsConfigReady "cluster" context.DeadlineExceeded
      (inr noStatus)
      [inr (withConditions
              [condition "Ready" "True"; condition "Degraded" "False"])].
Proof.
  apply (malformed_entries_skipped "demo" "cluster" context.DeadlineExceeded
           (withConditions
              [VString "Ready"; condition "Ready" "True"; VInt 7;
               condition "Degraded" "False"; VNil])
           (withConditions
              [condition "Ready" "True"; condition "Degraded" "False"])
           [VString "Ready"; condition "Ready" "True"; VInt 7;
            condition "Degraded" "False"; VNil]
           [inr noStatus] []
           (inr noStatus)
           [inr (withConditions
                   [VString "Ready"; condition "Ready" "True"; VInt 7;
                    condition "Degraded" "False"; VNil])]
           (inr noStatus)
           [inr (withConditions
                   [condition "Ready" "True"; condition "Degraded" "False"])]);
    vm_compute; reflexivity.
Defined.

(** * Fetch and list failures *)

(** C4, as the code has it: in [WaitForESOResourceReady] and in
    [WaitForExternalSecretsConfigReady] a failed fetch is transient: the probe
    answers [(false, nil)] and changes nothing, so the wait goes on exactly as
    if that tick had not happened (and ends with the interruption of the poll
    when it was the only tick); in [VerifyPodsReadyByPrefix] the probe returns
    the error of the failed list, and the wait ends at that tick with that
    error. *)
Theorem fetch_error_transient_list_error_returned
    namespace name prefixes cause e :
  (∀ out, esoCondition namespace name (inl e) out = ((false, None), out))
  ∧ (∀ acc, configCondition name (inl e) acc = ((false, None), acc))
  ∧ (WaitForESOResourceReady namespace name cause (inl e) []).1 = Some cause
  ∧ WaitForExternalSecretsConfigReady name cause (inl e) []
    = (if wait.Interrupted cause then Some (timeoutError name noConditions)
       else Some cause)
  ∧ (∀ next later,
       WaitForESOResourceReady namespace name cause (inl e) (next :: later)
       = WaitForESOResourceReady namespace name cause next later)
  ∧ (∀ first pre post,
       WaitForESOResourceReady namespace name cause first
         (pre ++ inl e :: post)
       = WaitForESOResourceReady namespace name cause first (pre ++ post))
  ∧ (∀ next later,
       WaitForExternalSecretsConfigReady name cause (inl e) (next :: later)
       = WaitForExternalSecretsConfigReady name cause next later)
  ∧ (∀ first pre post,
       WaitForExternalSecretsConfigReady name cause first
         (pre ++ inl e :: post)
       = WaitForExternalSecretsConfigReady name cause first (pre ++ post))
  ∧ podsCondition prefixes (inl e) tt = ((false, Some e), tt)
  ∧ (∀ later, VerifyPodsReadyByPrefix prefixes cause (inl e) later = Some e)
  ∧ (∀ first pre post,
       is_Some (pending (podsCondition prefixes) (first :: pre) tt) →
       VerifyPodsReadyByPrefix prefixes cause first (pre ++ inl e :: post)
       = Some e).
Proof.
  repeat split; try done.
  - intros first pre post. unfold WaitForESOResourceReady.
    rewrite !poll_as_loop, !app_comm_cons.
    by apply loop_skip.
  - intros first pre post.
    unfold WaitForExternalSecretsConfigReady, pollExternalSecretsConfig.
    rewrite !poll_as_loop, !app_comm_cons.
    by rewrite (loop_skip _ _ (first :: pre) (inl e)).
  - intros first pre post [[] Hp]. unfold VerifyPodsReadyByPrefix.
    rewrite poll_as_loop, app_comm_cons.
    by rewrite (loop_pending _ _ (first :: pre) _ _ _ Hp).
Qed.

(** A wait for the "api" pods whose first list fails, and a wait for a
    resource whose first fetch fails. *)
Lemma fetch_error_transient_list_error_returned_witness :
  VerifyPodsReadyByPrefix ["api"] context.DeadlineExceeded
    (inr [pendingPod "api-1"])
    ([inr [pendingPod "api-1"]]
     ++ inl (statusError "connection refused") :: [inr [runningPod "api-1"]])
  = Some (statusError "connection refused").
Proof.
  apply (proj2 (proj2 (proj2 (proj2 (proj2 (proj2 (proj2 (proj2 (proj2 (proj2
           (fetch_error_transient_list_error_returned "demo" "cluster"
              ["api"] context.DeadlineExceeded
              (statusError "connection refused")))))))))))
           (inr [pendingPod "api-1"]) [inr [pendingPod "api-1"]]
           [inr [runningPod "api-1"]]).
  vm_compute. eauto.
Defined.

(** C4 as stated fails: a list error inside [VerifyPodsReadyByPrefix] is not
    absorbed; the probe returns it and the wait ends with it at once, although
    the next list would have shown the pod ready. *)
Lemma list_error_ends_the_wait :
  (podsCondition ["api"] (inl (statusError "connection refused")) tt).1
  = (false, Some (statusError "connection refused"))
  ∧ VerifyPodsReadyByPrefix ["api"] context.DeadlineExceeded
      (inl (statusError "connection refused")) [inr [runningPod "api-1"]]
    = Some (statusError "connection refused")
  ∧ VerifyPodsReadyByPrefix ["api"] context.DeadlineExceeded
      (inr [runningPod "api-1"]) []
    = None.
Proof. repeat split; vm_compute; reflexivity. Qed.

(** * Cancellation *)

(** The two other waiters hand back what the poller returns. *)
Lemma eso_interrupted namespace name cause first later :
  is_Some (pending (esoCondition namespace name) (first :: later) []) →
  (WaitForESOResourceReady namespace name cause first later).1 = Some cause.
Proof.
  intros [out Hp]. unfold WaitForESOResourceReady.
  by rewrite poll_as_loop, (loop_exhausted _ _ _ _ _ Hp).
Qed.

Lemma pods_interrupted prefixes cause first later :
  is_Some (pending (podsCondition prefixes) (first :: later) tt) →
  VerifyPodsReadyByPrefix prefixes cause first later = Some cause.
Proof.
  intros [u Hp]. unfold VerifyPodsReadyByPrefix.
  by rewrite poll_as_loop, (loop_exhausted _ _ _ _ _ Hp).
Qed.

(** [WaitForExternalSecretsConfigReady] turns every interruption of the poll
    into the timeout error, which wraps nothing. *)
Lemma config_interrupted name cause first later acc :
  pending (configCondition name) (first :: later) noConditions = Some acc →
  wait.Interrupted cause = true →
  WaitForExternalSecretsConfigReady name cause first later
  = Some (timeoutError name acc)
  ∧ errors.Is (timeoutError name acc) context.Canceled = false
  ∧ errors.Is (timeoutError name acc) context.DeadlineExceeded = false.
Proof.
  intros Hp Hcause. split; [|done].
  unfold WaitForExternalSecretsConfigReady, pollExternalSecretsConfig.
  by rewrite poll_as_loop, (loop_exhausted _ _ _ _ _ Hp), Hcause.
Qed.

(** C5 on the code: the caller cancels the context while the resource is
    still progressing.  [WaitForESOResourceReady] and
    [VerifyPodsReadyByPrefix] return [context.Canceled];
    [WaitForExternalSecretsConfigReady] returns its timeout message, in which
    [errors.Is] finds neither [context.Canceled] nor anything else. *)
Theorem cancellation_reported_as_timeout :
  WaitForExternalSecretsConfigReady "cluster" context.Canceled
    (inr noStatus) [inr (withConditions [condition "Ready" "False"])]
  = Some (errorString
            ("timeout waiting for ExternalSecretsConfig cluster to be ready: " +:+
             "Ready=False (reason: <nil>, message: <nil>), Degraded=not set"))
  ∧ errors.Is
      (errorString
         ("timeout waiting for ExternalSecretsConfig cluster to be ready: " +:+
          "Ready=False (reason: <nil>, message: <nil>), Degraded=not set"))
      context.Canceled
    = false
  ∧ (WaitForESOResourceReady "demo" "aws-store" context.Canceled
       (inr noStatus) [inr (withConditions [condition "Ready" "False"])]).1
    = Some context.Canceled
  ∧ VerifyPodsReadyByPrefix ["api"] context.Canceled
      (inr []) [inr [pendingPod "api-1"]]
    = Some context.Canceled.
Proof. repeat split; vm_compute; reflexivity. Qed.

(** * Pod readiness *)

Lemma markReady_lookup ready cond k :
  markReady ready cond !! k
  = (λ b, b || (String.eqb (Type' cond) k
                && String.eqb (Status' cond) ConditionTrue))
    <$> ready !! k.
Proof.
  unfold markReady.
  destruct (String.eqb_spec (Type' cond) k) as [->|Hne]; simpl.
  - destruct (ready !! k) as [b|] eqn:Hk; simpl.
    + destruct (String.eqb (Status' cond) ConditionTrue); simpl.
      * by rewrite lookup_insert_eq, orb_true_r.
      * by rewrite Hk, orb_false_r.
    + done.
  - destruct (_ && _).
    + rewrite lookup_insert_ne by done.
      destruct (ready !! k); simpl; by rewrite ?orb_false_r.
    + destruct (ready !! k); simpl; by rewrite ?orb_false_r.
Qed.

Lemma foldl_markReady_lookup ready conds k :
  foldl markReady ready conds !! k = (λ b, b || hasTrue k conds) <$> ready !! k.
Proof.
  revert ready. induction conds as [|cond conds IH]; intros ready; simpl.
  - destruct (ready !! k); simpl; by rewrite ?orb_false_r.
  - rewrite IH, markReady_lookup.
    destruct (ready !! k); simpl; by rewrite ?orb_assoc.
Qed.

(** [isPodReady] holds when both condition types occur with status True. *)
Lemma isPodReady_spec pod :
  isPodReady pod
  = hasTrue "Ready" (Conditions (Status pod))
    && hasTrue "ContainersReady" (Conditions (Status pod)).
Proof.
  unfold isPodReady. rewrite !foldl_markReady_lookup. reflexivity.
Qed.

Lemma hasTrue_spec ty conds :
  hasTrue ty conds = true
  ↔ ∃ c, c ∈ conds ∧ Type' c = ty ∧ Status' c = "True".
Proof.
  unfold hasTrue. rewrite existsb_exists. split.
  - intros (c & Hin & Hc). apply andb_true_iff in Hc as [Ht Hs].
    apply String.eqb_eq in Ht, Hs. exists c.
    by rewrite list_elem_of_In.
  - intros (c & Hin & Ht & Hs). exists c. rewrite <- list_elem_of_In.
    split; [done|]. apply andb_true_iff. by rewrite !String.eqb_eq.
Qed.

(** The inner loop stores the pod when one of the prefixes matches. *)
Lemma matchPrefixes_spec prefixes matched pod :
  matchPrefixes prefixes matched pod
  = if expected prefixes pod then <[Name pod := pod]> matched else matched.
Proof.
  unfold matchPrefixes, expected.
  revert matched. induction prefixes as [|p prefixes IH]; intros matched;
    simpl; [done|].
  rewrite IH. destruct (gostrings.HasPrefix (Name pod) p); simpl; [|done].
  rewrite insert_insert_eq. by destruct (existsb _ _).
Qed.

(** What [matched] holds under a name is a listed pod of that name that
    matches a prefix: pods that match no prefix are ignored. *)
Lemma matchPods_lookup_inv prefixes items name pod :
  matchPods prefixes items !! name = Some pod →
  pod ∈ items ∧ Name pod = name ∧ expected prefixes pod = true.
Proof.
  unfold matchPods. revert pod.
  induction items as [|x items IH] using rev_ind; intros pod; simpl.
  - by rewrite lookup_empty.
  - rewrite foldl_app. simpl. rewrite matchPrefixes_spec.
    destruct (expected prefixes x) eqn:Hx.
    + destruct (decide (Name x = name)) as [<-|Hne].
      * rewrite lookup_insert_eq. intros [= <-].
        split; [|done]. apply elem_of_app. right. by apply list_elem_of_singleton.
      * rewrite lookup_insert_ne by done. intros Hl.
        destruct (IH _ Hl) as (? & ? & ?). split; [|done].
        apply elem_of_app. by left.
    + intros Hl. destruct (IH _ Hl) as (? & ? & ?). split; [|done].
      apply elem_of_app. by left.
Qed.

(** With distinct pod names, every listed pod that matches a prefix is in
    [matched] under its name. *)
Lemma matchPods_lookup prefixes items pod :
  NoDup (Name <$> items) →
  pod ∈ items →
  expected prefixes pod = true →
  matchPods prefixes items !! Name pod = Some pod.
Proof.
  unfold matchPods.
  induction items as [|x items IH] using rev_ind; intros Hnd Hin Hexp.
  - by apply elem_of_nil in Hin.
  - rewrite fmap_app in Hnd. apply NoDup_app in Hnd as (Hnd & Hfresh & _).
    rewrite foldl_app. simpl. rewrite matchPrefixes_spec.
    apply elem_of_app in Hin as [Hin|Hin].
    + assert (Name x ≠ Name pod) as Hne.
      { intros Heq. apply (Hfresh (Name pod)).
        - apply list_elem_of_fmap. eauto.
        - rewrite <- Heq. simpl. apply list_elem_of_singleton. done. }
      destruct (expected prefixes x); rewrite ?lookup_insert_ne by done;
        by apply IH.
    + apply list_elem_of_singleton in Hin as ->.
      by rewrite Hexp, lookup_insert_eq.
Qed.

(** The probe answers done exactly when [matched] has as many entries as
    there are prefixes and none of its pods fails the readiness test; it
    returns no error on a successful list. *)
Lemma podsCondition_listed prefixes items :
  podsCondition prefixes (inr items) tt
  = ((bool_decide (size (matchPods prefixes items) = length prefixes)
      && forallb (λ kv, negb (notReady kv.2))
           (map_to_list (matchPods prefixes items)),
      None), tt).
Proof.
  unfold podsCondition.
  destruct (Nat.eqb_spec (size (matchPods prefixes items)) (length prefixes))
    as [Heq|Hne]; simpl.
  - rewrite bool_decide_eq_true_2 by done. simpl.
    induction (map_to_list (matchPods prefixes items)) as [|kv l IH];
      simpl; [done|].
    destruct (notReady kv.2); simpl; [done|apply IH].
  - by rewrite bool_decide_eq_false_2.
Qed.

(** C10: the readiness test of the multi-entity waiter passes exactly when
    the pod is in phase Running and its condition list holds a "Ready" and a
    "ContainersReady" condition with status True; a pod of the listing (pod
    names are distinct within a namespace) that matches a prefix and fails
    the test makes the probe answer [(false, nil)]: retry, never an
    error. *)
Theorem pod_health_predicate prefixes items pod :
  (notReady pod = false
   ↔ Phase (Status pod) = "Running"
     ∧ (∃ c, c ∈ Conditions (Status pod)
             ∧ Type' c = "Ready" ∧ Status' c = "True")
     ∧ (∃ c, c ∈ Conditions (Status pod)
             ∧ Type' c = "ContainersReady" ∧ Status' c = "True"))
  ∧ (NoDup (Name <$> items) →
     pod ∈ items →
     expected prefixes pod = true →
     notReady pod = true →
     podsCondition prefixes (inr items) tt = ((false, None), tt)).
Proof.
  split.
  - unfold notReady. rewrite isPodReady_spec, <- !hasTrue_spec.
    rewrite orb_false_iff, !negb_false_iff, andb_true_iff, String.eqb_eq.
    done.
  - intros Hnd Hin Hexp Hbad. rewrite podsCondition_listed.
    do 2 f_equal. apply andb_false_iff. right.
    apply not_true_is_false. rewrite forallb_forall. intros Hall.
    pose proof (matchPods_lookup prefixes items pod Hnd Hin Hexp) as Hl.
    apply elem_of_map_to_list, list_elem_of_In in Hl.
    apply Hall in Hl. simpl in Hl. by rewrite Hbad in Hl.
Qed.

(** A pod that runs but whose containers are not ready yet. *)
Lemma pod_health_predicate_witness :
  podsCondition ["api"; "db"]
    (inr [runningPod "api-1";
          {| Name := "db-0";
             Status :=
               {| Phase := "Running";
                  Conditions :=
                    [ {| Type' := "Ready"; Status' := "True" |};
                      {| Type' := "ContainersReady"; Status' := "False" |} ]
               |} |}])
    tt
  = ((false, None), tt).
Proof.
  apply (proj2 (pod_health_predicate ["api"; "db"]
                  [runningPod "api-1";
                   {| Name := "db-0";
                      Status :=
                        {| Phase := "Running";
                           Conditions :=
                             [ {| Type' := "Ready"; Status' := "True" |};
                               {| Type' := "ContainersReady";
                                  Status' := "False" |} ] |} |}]
                  {| Name := "db-0";
                     Status :=
                       {| Phase := "Running";
                          Conditions :=
                            [ {| Type' := "Ready"; Status' := "True" |};
                              {| Type' := "ContainersReady";
                                 Status' := "False" |} ] |} |})).
  - apply (bool_decide_unpack _). vm_compute. exact I.
  - apply list_elem_of_In. simpl. auto.
  - vm_compute. reflexivity.
  - vm_compute. reflexivity.
Defined.

(** * Cardinality of the matched set *)

(** C3 on the code: with the expected prefixes "api" and "db" and a listing
    of two ready pods "api-1" and "api-2", no pod matches "db", yet [matched]
    has two entries for two prefixes: the probe answers done and
    [VerifyPodsReadyByPrefix] returns [nil]. *)
Theorem two_pods_of_one_prefix_pass :
  existsb (λ pod, gostrings.HasPrefix (Name pod) "db")
    [runningPod "api-1"; runningPod "api-2"]
  = false
  ∧ podsCondition ["api"; "db"]
      (inr [runningPod "api-1"; runningPod "api-2"]) tt
    = ((true, None), tt)
  ∧ VerifyPodsReadyByPrefix ["api"; "db"] context.DeadlineExceeded
      (inr [runningPod "api-1"; runningPod "api-2"]) []
    = None.
Proof. repeat split; vm_compute; reflexivity. Qed.

(** * More on the multi-entity waiter *)

Lemma matchPods_snoc prefixes items x :
  matchPods prefixes (items ++ [x])
  = if expected prefixes x
    then <[Name x := x]> (matchPods prefixes items)
    else matchPods prefixes items.
Proof.
  unfold matchPods. rewrite foldl_app. simpl. apply matchPrefixes_spec.
Qed.

Lemma matchPods_expectedOnly prefixes items :
  matchPods prefixes items
  = matchPods prefixes (filter (expected prefixes) items).
Proof.
  induction items as [|x items IH] using rev_ind; [done|].
  rewrite filter_app, matchPods_snoc.
  destruct (expected prefixes x) eqn:Hx.
  - rewrite filter_cons_True by (by rewrite Hx).
    by rewrite filter_nil, matchPods_snoc, Hx, <- IH.
  - rewrite filter_cons_False by (rewrite Hx; exact id).
    by rewrite filter_nil, app_nil_r.
Qed.

(** With distinct pod names, [matched] has one entry for each listed pod
    that matches a prefix. *)
Lemma matchPods_size prefixes items :
  NoDup (Name <$> items) →
  size (matchPods prefixes items) = length (filter (expected prefixes) items).
Proof.
  induction items as [|x items IH] using rev_ind; intros Hnd; [done|].
  rewrite fmap_app in Hnd. apply NoDup_app in Hnd as (Hnd & Hfresh & _).
  rewrite filter_app, length_app, matchPods_snoc, <- IH by done.
  destruct (expected prefixes x) eqn:Hx.
  - rewrite filter_cons_True by (by rewrite Hx). rewrite filter_nil. simpl.
    rewrite map_size_insert_None; [lia|].
    destruct (matchPods prefixes items !! Name x) as [pod|] eqn:Hl; [|done].
    apply matchPods_lookup_inv in Hl as (Hin & Hname & _).
    exfalso. apply (Hfresh (Name x)).
    + rewrite <- Hname. apply list_elem_of_fmap. eauto.
    + simpl. by apply list_elem_of_singleton.
  - rewrite filter_cons_False by (rewrite Hx; exact id). rewrite filter_nil.
    simpl. lia.
Qed.

Lemma forallb_map_to_list {V} (f : string * V → bool) (m : gmap string V) :
  forallb f (map_to_list m) = true
  ↔ ∀ k x, m !! k = Some x → f (k, x) = true.
Proof.
  rewrite forallb_forall. split.
  - intros Hall k x Hl. apply Hall, list_elem_of_In.
    by apply elem_of_map_to_list.
  - intros Hall [k x] Hin. apply Hall.
    by apply elem_of_map_to_list, list_elem_of_In.
Qed.

(** X1: with distinct pod names in the listing, the probe of
    [VerifyPodsReadyByPrefix] answers done exactly when the number of listed
    pods whose name starts with one of the prefixes equals the number of
    prefixes and each of these pods passes the readiness test; in every other
    case it answers [(false, nil)]. *)
Theorem pods_done_by_count prefixes items :
  NoDup (Name <$> items) →
  ∃ done,
    podsCondition prefixes (inr items) tt = ((done, None), tt)
    ∧ (done = true
       ↔ length (filter (expected prefixes) items) = length prefixes
         ∧ ∀ pod, pod ∈ items → expected prefixes pod = true →
                  notReady pod = false).
Proof.
  intros Hnd. rewrite podsCondition_listed. eexists. split; [done|].
  rewrite andb_true_iff, bool_decide_eq_true, matchPods_size by done.
  rewrite forallb_map_to_list. split.
  - intros [Hsize Hall]. split; [done|]. intros pod Hin Hexp.
    pose proof (matchPods_lookup prefixes items pod Hnd Hin Hexp) as Hl.
    apply Hall in Hl. simpl in Hl. by apply negb_true_iff in Hl.
  - intros [Hsize Hall]. split; [done|]. intros k pod Hl. simpl.
    apply matchPods_lookup_inv in Hl as (Hin & _ & Hexp).
    apply negb_true_iff. by apply Hall.
Qed.

(** Three pods for the prefixes "api" and "db": the two replicas of "api"
    make the count differ from the number of prefixes. *)
Lemma pods_done_by_count_witness :
  ∃ done,
    podsCondition ["api"; "db"]
      (inr [runningPod "api-1"; runningPod "api-2"; runningPod "db-0"]) tt
    = ((done, None), tt)
    ∧ (done = true
       ↔ length (filter (expected ["api"; "db"])
                   [runningPod "api-1"; runningPod "api-2"; runningPod "db-0"])
         = length ["api"; "db"]
         ∧ ∀ pod,
             pod ∈ [runningPod "api-1"; runningPod "api-2"; runningPod "db-0"] →
             expected ["api"; "db"] pod = true →
             notReady pod = false).
Proof.
  apply (pods_done_by_count ["api"; "db"]
           [runningPod "api-1"; runningPod "api-2"; runningPod "db-0"]).
  apply (bool_decide_unpack _). vm_compute. exact I.
Defined.

Lemma loop_fmap {A S} (condition : wait.ConditionFunc (A := A) (S := S))
    (f : A → A) cause ticks s :
  (∀ a s0, condition (f a) s0 = condition a s0) →
  wait.loopConditionUntilContext condition cause (f <$> ticks) s
  = wait.loopConditionUntilContext condition cause ticks s.
Proof.
  intros Hf. revert s. induction ticks as [|a ticks IH]; intros s; [done|].
  simpl. rewrite Hf. destruct (condition a s) as [[ok err] s1].
  destruct (bool_decide (is_Some err) || ok); [done|]. apply IH.
Qed.

Lemma pending_Forall {A S} (condition : wait.ConditionFunc (A := A) (S := S))
    ticks s :
  Forall (λ a, ∀ s0, condition a s0 = ((false, None), s0)) ticks →
  pending condition ticks s = Some s.
Proof.
  induction 1 as [|a ticks Ha _ IH]; simpl; [done|]. by rewrite Ha.
Qed.

(** X2: pods whose name starts with none of the prefixes are ignored by
    [VerifyPodsReadyByPrefix]: the probe gives the same verdict on a listing
    and on the listing without them, and so does the whole wait. *)
Theorem unexpected_pods_ignored prefixes cause first later :
  (∀ items,
     podsCondition prefixes (inr items) tt
     = podsCondition prefixes (inr (filter (expected prefixes) items)) tt)
  ∧ VerifyPodsReadyByPrefix prefixes cause first later
    = VerifyPodsReadyByPrefix prefixes cause
        (expectedOnly prefixes first) (expectedOnly prefixes <$> later).
Proof.
  assert (∀ listed u,
            podsCondition prefixes (expectedOnly prefixes listed) u
            = podsCondition prefixes listed u) as Hsame.
  { intros [e|items] u; [done|]. unfold podsCondition. simpl.
    by rewrite <- matchPods_expectedOnly. }
  split.
  - intros items. symmetry. apply (Hsame (inr items)).
  - unfold VerifyPodsReadyByPrefix. rewrite !poll_as_loop.
    by rewrite <- fmap_cons, loop_fmap.
Qed.

(** X3: with an empty list of prefixes the first list that succeeds ends the
    wait with [nil], whatever pods it shows. *)
Theorem no_prefixes_succeed_at_once cause items later :
  VerifyPodsReadyByPrefix [] cause (inr items) later = None.
Proof.
  unfold VerifyPodsReadyByPrefix, wait.PollUntilContextTimeout.
  rewrite podsCondition_listed.
  assert (matchPods [] items = ∅) as ->; [|done].
  induction items as [|x items IH] using rev_ind; [done|].
  by rewrite matchPods_snoc.
Qed.

(** X4: while every list shows a number of matching pods (with distinct
    names) other than the number of prefixes, for instance two replicas under
    one prefix, [VerifyPodsReadyByPrefix] never succeeds, ready pods or not:
    it returns [ctx.Err()] when the context is done. *)
Theorem count_mismatch_never_converges prefixes cause first later :
  Forall (λ listed,
            ∃ items, listed = inr items
                     ∧ NoDup (Name <$> items)
                     ∧ length (filter (expected prefixes) items)
                       ≠ length prefixes)
         (first :: later) →
  VerifyPodsReadyByPrefix prefixes cause first later = Some cause.
Proof.
  intros Hall. apply pods_interrupted. exists tt.
  apply pending_Forall. eapply Forall_impl; [exact Hall|].
  intros listed (items & -> & Hnd & Hcount) [].
  rewrite podsCondition_listed, matchPods_size by done.
  by rewrite bool_decide_eq_false_2.
Qed.

(** Two ready replicas of "api" and one ready "db" pod, listed twice. *)
Lemma count_mismatch_never_converges_witness :
  VerifyPodsReadyByPrefix ["api"; "db"] context.DeadlineExceeded
    (inr [runningPod "api-1"; runningPod "api-2"; runningPod "db-0"])
    [inr [runningPod "api-1"; runningPod "api-2"; runningPod "db-0"]]
  = Some context.DeadlineExceeded.
Proof.
  apply (count_mismatch_never_converges ["api"; "db"]
           context.DeadlineExceeded
           (inr [runningPod "api-1"; runningPod "api-2"; runningPod "db-0"])
           [inr [runningPod "api-1"; runningPod "api-2"; runningPod "db-0"]]).
  repeat constructor;
    (exists [runningPod "api-1"; runningPod "api-2"; runningPod "db-0"];
     split; [reflexivity|split];
     [apply (bool_decide_unpack _); vm_compute; exact I
     |vm_compute; discriminate]).
Defined.



(** * More on the dual-condition waiter *)

Lemma nestedFrom_error val walked fields v found e :
  unstructured.nestedFrom val walked fields = (v, found, Some e) →
  ∃ path x expected, e = accessorError path x expected.
Proof.
  revert val walked. induction fields as [|field fields IH];
    intros val walked; simpl; [done|].
  destruct val; try (intros [= <- <- <-]; eauto); try done.
  destruct (m !! field); [apply IH|done].
Qed.

Lemma NestedSlice_error u fields conds found e :
  unstructured.NestedSlice u fields = (conds, found, Some e) →
  ∃ path x expected, e = accessorError path x expected.
Proof.
  unfold unstructured.NestedSlice, unstructured.NestedFieldNoCopy.
  destruct (unstructured.nestedFrom _ _ _) as [[v fd] [e'|]] eqn:Hn.
  - rewrite orb_true_r. intros [= <- <- <-].
    by apply nestedFrom_error in Hn.
  - destruct fd; simpl; [|done].
    destruct v; intros [= <- <- <-]; eauto.
Qed.

(** X6: a [status.conditions] that is present but is not a list, [null]
    included, or a [status] that is neither a map nor [null], is an accessor
    error of [NestedSlice].  [WaitForExternalSecretsConfigReady] ends at the
    tick that fetches such a resource with that error wrapped (it is not
    turned into the timeout message), while the probe of
    [WaitForESOResourceReady] asks to retry. *)
Theorem malformed_conditions_field
    namespace name cause first later pre u post :
  first :: later = pre ++ inr u :: post →
  is_Some (pending (configCondition name) pre noConditions) →
  (∀ st v,
     u !! "status" = Some (VMap st) →
     st !! "conditions" = Some v →
     (∀ l, v ≠ VSlice l) →
     WaitForExternalSecretsConfigReady name cause first later
     = Some (wrapError
               "failed to extract conditions from ExternalSecretsConfig: "
               (accessorError ["status"; "conditions"] v "[]interface{}"))
     ∧ ∀ out, esoCondition namespace name (inr u) out = ((false, None), out))
  ∧ (∀ v,
       u !! "status" = Some v →
       v ≠ VNil →
       (∀ st, v ≠ VMap st) →
       WaitForExternalSecretsConfigReady name cause first later
       = Some (wrapError
                 "failed to extract conditions from ExternalSecretsConfig: "
                 (accessorError ["status"; "conditions"] v
                    "map[string]interface{}"))
       ∧ ∀ out, esoCondition namespace name (inr u) out = ((false, None), out)).
Proof.
  intros Hticks [acc Hp].
  assert (∀ e,
            unstructured.NestedSlice u ["status"; "conditions"]
            = ([], false, Some e) →
            (∀ path x expected, wait.Interrupted (accessorError path x expected)
                                = false) →
            WaitForExternalSecretsConfigReady name cause first later
            = Some (wrapError
                      "failed to extract conditions from ExternalSecretsConfig: "
                      e)
            ∧ ∀ out, esoCondition namespace name (inr u) out
                     = ((false, None), out)) as Hfatal.
  { intros e Hu Hni. split.
    - unfold WaitForExternalSecretsConfigReady, pollExternalSecretsConfig.
      rewrite poll_as_loop, Hticks, (loop_pending _ _ _ _ _ _ Hp).
      simpl. rewrite Hu. simpl.
      destruct (NestedSlice_error _ _ _ _ _ Hu) as (p & x & ex & ->).
      done.
    - intros out. unfold esoCondition. by rewrite Hu. }
  split.
  - intros st v Hst Hv Hnot. apply Hfatal; [|done].
    unfold unstructured.NestedSlice, unstructured.NestedFieldNoCopy. simpl.
    rewrite Hst, Hv. simpl.
    destruct v; try done. by destruct (Hnot l).
  - intros v Hst Hnil Hnot. apply Hfatal; [|done].
    unfold unstructured.NestedSlice, unstructured.NestedFieldNoCopy. simpl.
    rewrite Hst. destruct v; try done. by destruct (Hnot m).
Qed.

(** A resource whose [status.conditions] is [null]. *)
Lemma malformed_conditions_field_witness :
  WaitForExternalSecretsConfigReady "cluster" context.DeadlineExceeded
    (inr noStatus)
    [inr {[ "status" := VMap {[ "conditions" := VNil ]} ]};
     inr (withConditions [condition "Ready" "True";
                          condition "Degraded" "False"])]
  = Some (wrapError
            "failed to extract conditions from ExternalSecretsConfig: "
            (accessorError ["status"; "conditions"] VNil "[]interface{}")).
Proof.
  apply (proj1 (malformed_conditions_field "demo" "cluster"
                  context.DeadlineExceeded (inr noStatus)
                  [inr {[ "status" := VMap {[ "conditions" := VNil ]} ]};
                   inr (withConditions [condition "Ready" "True";
                                        condition "Degraded" "False"])]
                  [inr noStatus]
                  {[ "status" := VMap {[ "conditions" := VNil ]} ]}
                  [inr (withConditions [condition "Ready" "True";
                                        condition "Degraded" "False"])]
                  eq_refl
                  (ex_intro _ noConditions eq_refl))
           {[ "conditions" := VNil ]} VNil).
  - vm_compute. reflexivity.
  - vm_compute. reflexivity.
  - discriminate.
Defined.

(** X7: [WaitForExternalSecretsConfigReady] returns [nil] at the first tick
    whose fetch shows a condition list and at which the last Ready condition
    observed has status True and the last Degraded condition observed has
    another status than True; either of the two may have been observed at an
    earlier tick only. *)
Theorem ready_and_not_degraded_succeeds
    name cause first later pre u post conds ready degraded :
  first :: later = pre ++ inr u :: post →
  is_Some (pending (configCondition name) pre noConditions) →
  unstructured.NestedSlice u ["status"; "conditions"] = (conds, true, None) →
  last (observations "Ready" (pre ++ [inr u])) = Some ready →
  last (observations "Degraded" (pre ++ [inr u])) = Some degraded →
  index ready "status" = VString "True" →
  index degraded "status" ≠ VString "True" →
  WaitForExternalSecretsConfigReady name cause first later = None.
Proof.
  intros Hticks [acc Hp] Hu Hr Hd Hrs Hds.
  destruct (config_run_state name pre (inr u) acc Hp) as [Hr' Hd'].
  rewrite Hr in Hr'. rewrite Hd in Hd'.
  rewrite (configCondition_found name u conds acc Hu) in Hr', Hd'.
  simpl in Hr', Hd'.
  assert (ifaceEqString (index degraded "status") "True" = false) as Hds'.
  { apply not_true_is_false. by rewrite ifaceEqString_true. }
  assert (configCondition name (inr u) acc
          = ((true, None), foldl recordCondition acc conds)) as Hc.
  { rewrite (configCondition_found name u conds acc Hu). cbv zeta.
    by rewrite Hr', Hd', Hds', Hrs. }
  unfold WaitForExternalSecretsConfigReady, pollExternalSecretsConfig.
  rewrite poll_as_loop, Hticks, (loop_pending _ _ _ _ _ _ Hp).
  by rewrite (loop_stop _ _ _ _ _ _ _ _ Hc) by eauto.
Qed.

(** Degraded=False is reported once, at the second tick; Ready turns True at
    the third tick, whose snapshot has no Degraded condition. *)
Lemma ready_and_not_degraded_succeeds_witness :
  WaitForExternalSecretsConfigReady "cluster" context.DeadlineExceeded
    (inr noStatus)
    [inr (withConditions [condition "Ready" "False";
                          condition "Degraded" "False"]);
     inr (withConditions [condition "Ready" "True"])]
  = None.
Proof.
  apply (ready_and_not_degraded_succeeds "cluster" context.DeadlineExceeded
           (inr noStatus)
           [inr (withConditions [condition "Ready" "False";
                                 condition "Degraded" "False"]);
            inr (withConditions [condition "Ready" "True"])]
           [inr noStatus;
            inr (withConditions [condition "Ready" "False";
                                 condition "Degraded" "False"])]
           (withConditions [condition "Ready" "True"]) []
           [condition "Ready" "True"]
           {[ "type" := VString "Ready"; "status" := VString "True" ]}
           {[ "type" := VString "Degraded"; "status" := VString "False" ]});
    try (vm_compute; eauto; fail).
  vm_compute. discriminate.
Defined.

(** X8: no error that [WaitForExternalSecretsConfigReady] returns is an
    interruption for [wait.Interrupted], and [errors.Is] finds neither
    [context.Canceled] nor [context.DeadlineExceeded] in it: a caller cannot
    tell its timeout from another failure by these tests. *)
Theorem config_error_never_interrupted name cause first later e :
  wait.Interrupted cause = true →
  WaitForExternalSecretsConfigReady name cause first later = Some e →
  wait.Interrupted e = false
  ∧ errors.Is e context.Canceled = false
  ∧ errors.Is e context.DeadlineExceeded = false.
Proof.
  intros Hcause.
  unfold WaitForExternalSecretsConfigReady, pollExternalSecretsConfig.
  rewrite poll_as_loop.
  destruct (wait.loopConditionUntilContext _ _ _ _) as [[e'|] acc] eqn:Hrun;
    [|done].
  destruct (wait.Interrupted e') eqn:Hint; intros [= <-]; [done|].
  apply loop_inv in Hrun
    as [[_ [= ->]]|(pre & got & post & s0 & ok & _ & _ & Hc & _)].
  { by rewrite Hcause in Hint. }
  destruct got as [?|u]; [done|]. simpl in Hc.
  destruct (unstructured.NestedSlice u _) as [[conds found] [e0|]] eqn:Hu.
  - destruct (NestedSlice_error _ _ _ _ _ Hu) as (p & x & ex & ->).
    by simplify_eq.
  - destruct found; simpl in Hc; [|done].
    repeat case_match; by simplify_eq.
Qed.

(** The deadline elapses on a resource that is still progressing. *)
Lemma config_error_never_interrupted_witness :
  wait.Interrupted
    (errorString
       ("timeout waiting for ExternalSecretsConfig cluster to be ready: " +:+
        "Ready=False (reason: <nil>, message: <nil>), Degraded=not set"))
  = false.
Proof.
  apply (config_error_never_interrupted "cluster" context.DeadlineExceeded
           (inr (withConditions [condition "Ready" "False"])) []).
  - reflexivity.
  - vm_compute. reflexivity.
Defined.

(** * The two resource waiters compared *)

Lemma ifaceEqString_assertString v lit :
  lit ≠ "" →
  ifaceEqString v lit = String.eqb (assertString v) lit.
Proof.
  intros Hlit. destruct v; simpl; try done; by destruct lit.
Qed.

(** X9: a run of fetched snapshots on which
    [WaitForExternalSecretsConfigReady] returns [nil] makes
    [WaitForESOResourceReady] return [nil] as well: the dual-condition waiter
    is the stricter of the two. *)
Theorem dual_success_implies_single
    namespace name name' cause cause' first later :
  WaitForExternalSecretsConfigReady name cause first later = None →
  (WaitForESOResourceReady namespace name' cause' first later).1 = None.
Proof.
  intros Hok.
  apply config_success_inv in Hok
    as (pre & got & post & ready & degraded & Hticks & _ & Hr & _ & Hrs & _).
  unfold WaitForESOResourceReady. rewrite poll_as_loop, eso_loop_result.
  assert (existsb showsReady (first :: later) = true) as ->; [|done].
  apply last_Some in Hr as [obs Hr].
  assert (ready ∈ observations "Ready" (pre ++ [got])) as Hin.
  { rewrite Hr. apply elem_of_app. right. by apply list_elem_of_singleton. }
  unfold observations in Hin.
  apply list_elem_of_omap in Hin as (c & Hc & Hty).
  apply list_elem_of_bind in Hc as (tick & Hc & Htick).
  apply ofType_Some in Hty as [-> Hty].
  apply existsb_exists. exists tick. split.
  - apply list_elem_of_In. rewrite Hticks, (cons_middle got), app_assoc.
    apply elem_of_app. by left.
  - unfold showsReady. apply existsb_exists. exists (VMap ready). split.
    + by apply list_elem_of_In.
    + simpl. rewrite Hrs, andb_true_r.
      rewrite ifaceEqString_assertString by done.
      by apply String.eqb_eq.
Qed.

(** The example scenario of the dual-condition waiter. *)
Lemma dual_success_implies_single_witness :
  (WaitForESOResourceReady "demo" "cluster" context.Canceled
     (inr noStatus)
     [inr (withConditions [condition "Ready" "Unknown"]);
      inr (withConditions [condition "Ready" "False";
                           condition "Degraded" "False"]);
      inr (withConditions [condition "Ready" "True";
                           condition "Degraded" "False"])]).1
  = None.
Proof.
  apply (dual_success_implies_single "demo" "cluster" "cluster"
           context.DeadlineExceeded context.Canceled).
  vm_compute. reflexivity.
Defined.

(** * The diagnostics of the single-condition waiter *)

Lemma scanReady_not_ready namespace name conds out :
  existsb readyTrue conds = false →
  scanReady namespace name conds out
  = (false,
     out ++ (notReadyLine namespace name <$> omap (ofType "Ready") conds)).
Proof.
  revert out. induction conds as [|c conds IH]; intros out Hno; simpl.
  - by rewrite app_nil_r.
  - simpl in Hno. apply orb_false_iff in Hno as [Hc Hno].
    destruct c; simpl; try by apply IH.
    simpl in Hc.
    rewrite <- (ifaceEqString_assertString _ "Ready") by done.
    destruct (ifaceEqString (index m "type") "Ready"); simpl in *.
    + rewrite Hc. rewrite IH by done. by rewrite <- app_assoc.
    + by apply IH.
Qed.

Lemma esoCondition_not_ready namespace name got out :
  showsReady got = false →
  esoCondition namespace name got out
  = ((false, None),
     out ++ (notReadyLine namespace name
             <$> omap (ofType "Ready") (entriesOf got))).
Proof.
  unfold showsReady, entriesOf. destruct got as [e|u]; simpl.
  { by rewrite app_nil_r. }
  destruct (unstructured.NestedSlice u _) as [[conds found] [e|]]; simpl.
  { destruct found; by rewrite app_nil_r. }
  destruct found; simpl; [|by rewrite app_nil_r].
  intros Hno. by rewrite scanReady_not_ready.
Qed.

(** X10: a wait of [WaitForESOResourceReady] during which no tick shows
    Ready=True ends with [ctx.Err()] and has printed, in the order of
    observation, one line "resource <namespace>/<name> not ready: <message>"
    for every Ready condition it has seen, and nothing else. *)
Theorem eso_timeout_prints_observations namespace name cause first later :
  existsb showsReady (first :: later) = false →
  WaitForESOResourceReady namespace name cause first later
  = (Some cause,
     notReadyLine namespace name <$> observations "Ready" (first :: later)).
Proof.
  unfold WaitForESOResourceReady. rewrite poll_as_loop.
  change (notReadyLine namespace name
          <$> observations "Ready" (first :: later))
    with ([] ++ (notReadyLine namespace name
                 <$> observations "Ready" (first :: later))).
  generalize (first :: later) as ticks. generalize (@nil string) as out.
  intros out ticks. revert out.
  induction ticks as [|got ticks IH]; intros out Hno; simpl.
  - by rewrite app_nil_r.
  - simpl in Hno. apply orb_false_iff in Hno as [Hgot Hno].
    rewrite (esoCondition_not_ready _ _ _ _ Hgot). simpl.
    rewrite IH by done. unfold observations. simpl.
    by rewrite omap_app, fmap_app, app_assoc.
Qed.

(** Two fetches that show Ready=False, then the deadline. *)
Lemma eso_timeout_prints_observations_witness :
  WaitForESOResourceReady "demo" "aws-store" context.DeadlineExceeded
    (inr (withConditions
            [conditionWith "Ready" "False" "InvalidProviderConfig"
               "unable to create client"]))
    [inl (statusError "NotFound");
     inr (withConditions
            [conditionWith "Ready" "False" "InvalidProviderConfig"
               "could not get provider client"])]
  = (Some context.DeadlineExceeded,
     ["resource demo/aws-store not ready: unable to create client" +:+
      newline;
      "resource demo/aws-store not ready: could not get provider client" +:+
      newline]).
Proof.
  etransitivity.
  { apply (eso_timeout_prints_observations "demo" "aws-store"
             context.DeadlineExceeded
             (inr (withConditions
                     [conditionWith "Ready" "False" "InvalidProviderConfig"
                        "unable to create client"]))
             [inl (statusError "NotFound");
              inr (withConditions
                     [conditionWith "Ready" "False" "InvalidProviderConfig"
                        "could not get provider client"])]).
    vm_compute. reflexivity. }
  vm_compute. reflexivity.
Defined.

(** * The version string *)

Lemma substring_0_length n s :
  String.length (String.substring 0 n s) = n `min` String.length s.
Proof.
  revert n. induction s as [|c s IH]; intros [|n]; simpl; try done.
  by rewrite IH.
Qed.

Lemma substring_0_prefix n s :
  String.prefix (String.substring 0 n s) s = true.
Proof.
  revert n. induction s as [|c s IH]; intros [|n]; simpl; try done.
  destruct (Ascii.ascii_dec c c); [apply IH|done].
Qed.

Lemma prefix_refl s : String.prefix s s = true.
Proof.
  induction s as [|c s IH]; simpl; [done|].
  by destruct (Ascii.ascii_dec c c).
Qed.

(** X11: [version.String] prints the version, the commit and the build date
    in the form "<version> (commit: <short>, built: <date>)", where <short>
    is the commit cut to its first seven bytes: a prefix of the commit of
    length min(7, len(commit)), so a shorter commit is printed whole. *)
Theorem String_abbreviates_commit x :
  ∃ short,
    version.String x
    = version.versionFromGit x +:+ " (commit: " +:+ short +:+ ", built: " +:+
      version.buildDate x +:+ ")"
    ∧ String.prefix short (version.commitFromGit x) = true
    ∧ String.length short = 7 `min` String.length (version.commitFromGit x).
Proof.
  unfold version.String.
  cbv beta iota zeta
    delta [version.Get version.GitCommit version.GitVersion version.BuildDate].
  destruct (Nat.ltb_spec 7 (String.length (version.commitFromGit x))).
  - eexists. split; [done|].
    split; [apply substring_0_prefix|apply substring_0_length].
  - eexists. split; [done|]. split; [apply prefix_refl|lia].
Qed.

(** * Random names *)

Lemma chars_get i : i < 36 → is_Some (String.get i chars).
Proof.
  intros Hi. do 36 (destruct i as [|i]; [by eexists|]). lia.
Qed.

Lemma fillBuffer_spec intn k n :
  (∀ j, intn j < 36) →
  ∃ s, fillBuffer intn k n = Some s
       ∧ String.length s = n
       ∧ ∀ i, i < n → String.get i s = String.get (intn (k + i)) chars.
Proof.
  intros Hintn. revert k. induction n as [|n IH]; intros k; cbn [fillBuffer].
  - exists "". repeat split. lia.
  - destruct (chars_get (intn k) (Hintn k)) as [c Hc].
    destruct (IH (S k)) as (rest & Hrest & Hlen & Hget).
    rewrite Hc, Hrest. exists (String c rest). split; [done|].
    split; [simpl; by rewrite Hlen|].
    intros [|i] Hi; cbn [String.get].
    + by rewrite Nat.add_0_r.
    + rewrite Hget by lia. do 2 f_equal. lia.
Qed.

(** X12: [GetRandomString] does not return for a negative length, for one
    above the allocation limit of the runtime, or when the memory left does
    not hold a string of that length.  For any other length, and draws within
    the bound that [Intn] is called with, it returns a string of exactly
    [strLen] bytes whose byte at each index is the byte of
    "abcdefghijklmnopqrstuvwxyz0123456789" that the draw for that index
    selects. *)
Theorem GetRandomString_length_alphabet fits intn strLen :
  ((strLen < 0 ∨ 2 ^ 48 < strLen)%Z →
   GetRandomString fits intn strLen = None)
  ∧ (fits strLen = false → GetRandomString fits intn strLen = None)
  ∧ ((0 ≤ strLen ≤ 2 ^ 48)%Z →
     fits strLen = true →
     (∀ k, intn k < String.length chars) →
     ∃ s, GetRandomString fits intn strLen = Some s
          ∧ Z.of_nat (String.length s) = strLen
          ∧ ∀ i, i < String.length s →
                 ∃ c, String.get i s = Some c
                      ∧ String.get (intn i) chars = Some c).
Proof.
  unfold GetRandomString, maxAlloc. split_and!.
  - intros [Hneg|Hbig].
    + by rewrite (proj2 (Z.ltb_lt _ _) Hneg).
    + by rewrite (proj2 (Z.ltb_lt _ _) Hbig), orb_true_r.
  - intros ->. by destruct (_ || _).
  - intros [Hpos Hmax] -> Hintn.
    rewrite (proj2 (Z.ltb_ge _ _) Hpos), (proj2 (Z.ltb_ge _ _) Hmax).
    cbn [orb].
    destruct (fillBuffer_spec intn 0 (Z.to_nat strLen) Hintn)
      as (s & Hs & Hlen & Hget).
    exists s. split; [done|]. split; [lia|].
    intros i Hi. rewrite Hlen in Hi.
    destruct (chars_get (intn i) (Hintn i)) as [c Hc].
    exists c. by rewrite (Hget i Hi).
Qed.

(** Five draws, in a process that has a gigabyte left. *)
Lemma GetRandomString_length_alphabet_witness :
  ∃ s, GetRandomString (λ n, (n <? 2 ^ 30)%Z)
         (λ k, (7 * k + 30) `mod` 36) 5
       = Some s
       ∧ Z.of_nat (String.length s) = 5%Z
       ∧ ∀ i, i < String.length s →
              ∃ c, String.get i s = Some c
                   ∧ String.get ((7 * i + 30) `mod` 36) chars = Some c.
Proof.
  apply (proj2 (proj2 (GetRandomString_length_alphabet
                         (λ n, (n <? 2 ^ 30)%Z)
                         (λ k, (7 * k + 30) `mod` 36) 5))).
  - lia.
  - reflexivity.
  - intros k. apply Nat.mod_upper_bound. discriminate.
Defined.

(** * Deleting an AWS secret *)

(** X13: [DeleteAWSSecret] returns [nil] exactly when the credentials secret
    is read, the session is created and the deletion succeeds.  The error of
    a failed read is returned as it is; the error of a failed session or of a
    failed deletion is wrapped with [%w].  Whatever error is returned,
    [errors.Is] finds [context.Canceled] or [context.DeadlineExceeded] in it,
    and [wait.Interrupted] holds of it, exactly when this is so for the error
    of the step that failed. *)
Theorem DeleteAWSSecret_outcome
    getSecret newSession deleteSecret secretName region :
  let result :=
    (DeleteAWSSecret getSecret newSession deleteSecret secretName region).1 in
  let config data :=
    {| awssdk.AccessKeyID := default "" (data !! "aws_access_key_id");
       awssdk.SecretAccessKey := default "" (data !! "aws_secret_access_key");
       awssdk.Region := region |} in
  let input :=
    {| awssdk.SecretId := secretName;
       awssdk.ForceDeleteWithoutRecovery := true |} in
  (result = None
   ↔ ∃ data, getSecret "kube-system" "aws-creds" = inr data
             ∧ newSession (config data) = None
             ∧ deleteSecret (config data) input = None)
  ∧ (∀ e, getSecret "kube-system" "aws-creds" = inl e → result = Some e)
  ∧ (∀ data e,
       getSecret "kube-system" "aws-creds" = inr data →
       newSession (config data) = Some e →
       result = Some (wrapError "failed to create AWS session: " e))
  ∧ (∀ data e,
       getSecret "kube-system" "aws-creds" = inr data →
       newSession (config data) = None →
       deleteSecret (config data) input = Some e →
       result = Some (wrapError "failed to delete AWS secret: " e))
  ∧ (∀ e',
       result = Some e' →
       ∃ cause,
         (getSecret "kube-system" "aws-creds" = inl cause
          ∨ ∃ data,
              getSecret "kube-system" "aws-creds" = inr data
              ∧ (newSession (config data) = Some cause
                 ∨ (newSession (config data) = None
                    ∧ deleteSecret (config data) input = Some cause)))
         ∧ errors.Is e' context.Canceled = errors.Is cause context.Canceled
         ∧ errors.Is e' context.DeadlineExceeded
           = errors.Is cause context.DeadlineExceeded
         ∧ wait.Interrupted e' = wait.Interrupted cause).
Proof.
  unfold DeleteAWSSecret, fetchAWSCreds. cbv zeta.
  change awsCredNamespace with "kube-system".
  change awsCredSecretName with "aws-creds".
  change awsCredKeyIdSecretKeyName with "aws_access_key_id".
  change awsCredAccessKeySecretKeyName with "aws_secret_access_key".
  split_and!.
  - destruct (getSecret "kube-system" "aws-creds") as [e0|data].
    { split; [done|]. by intros (? & ? & _). }
    destruct (newSession _) as [e1|] eqn:Hs.
    { split; [done|]. intros (d & [= <-] & Hs' & _). congruence. }
    destruct (deleteSecret _ _) as [e2|] eqn:Hd.
    { split; [done|]. intros (d & [= <-] & _ & Hd'). congruence. }
    split; eauto.
  - by intros e ->.
  - by intros data e -> ->.
  - by intros data e -> -> ->.
  - intros e'.
    destruct (getSecret "kube-system" "aws-creds") as [e0|data].
    { intros [= <-]. exists e0. eauto. }
    destruct (newSession _) as [e1|] eqn:Hs.
    { intros [= <-]. exists e1. split; [|done]. right. exists data. eauto. }
    destruct (deleteSecret _ _) as [e2|] eqn:Hd; [|done].
    intros [= <-]. exists e2. split; [|done]. right. exists data. eauto.
Qed.

(** The deletion is refused because the caller's context was cancelled. *)
Lemma DeleteAWSSecret_outcome_witness :
  (DeleteAWSSecret
     (credsOnly {[ "aws_access_key_id" := "AKIAEXAMPLE";
                   "aws_secret_access_key" := "secret" ]})
     (λ _, None)
     (λ _ _, Some (wrapError "RequestCanceled: " context.Canceled))
     "e2e-secret" "us-east-1").1
  = Some (wrapError "failed to delete AWS secret: "
            (wrapError "RequestCanceled: " context.Canceled)).
Proof.
  exact (proj1 (proj2 (proj2 (proj2
           (DeleteAWSSecret_outcome
              (credsOnly {[ "aws_access_key_id" := "AKIAEXAMPLE";
                            "aws_secret_access_key" := "secret" ]})
              (λ _, None)
              (λ _ _, Some (wrapError "RequestCanceled: " context.Canceled))
              "e2e-secret" "us-east-1"))))
           {[ "aws_access_key_id" := "AKIAEXAMPLE";
              "aws_secret_access_key" := "secret" ]}
           (wrapError "RequestCanceled: " context.Canceled)
           eq_refl eq_refl eq_refl).
Defined.

(** X14: the requests that [DeleteAWSSecret] sends.  The only secret it reads
    is "aws-creds" of the namespace "kube-system"; a session is asked for
    only after that secret was read, with the static credentials taken from
    it (a key absent from the secret reads as the empty string) and the given
    region; a deletion is sent only after that session was created, at most
    once, for [secretName] and with [ForceDeleteWithoutRecovery] set: nothing
    is deleted when the credentials or the session fail. *)
Theorem DeleteAWSSecret_calls
    getSecret newSession deleteSecret secretName region :
  let calls :=
    (DeleteAWSSecret getSecret newSession deleteSecret secretName region).2 in
  (∀ namespace name,
     GetSecretCall namespace name ∈ calls →
     namespace = "kube-system" ∧ name = "aws-creds")
  ∧ (∀ config,
       NewSessionCall config ∈ calls →
       ∃ data,
         getSecret "kube-system" "aws-creds" = inr data
         ∧ config
           = {| awssdk.AccessKeyID :=
                  default "" (data !! "aws_access_key_id");
                awssdk.SecretAccessKey :=
                  default "" (data !! "aws_secret_access_key");
                awssdk.Region := region |})
  ∧ (∀ config input,
       DeleteSecretCall config input ∈ calls →
       NewSessionCall config ∈ calls
       ∧ newSession config = None
       ∧ input = {| awssdk.SecretId := secretName;
                    awssdk.ForceDeleteWithoutRecovery := true |})
  ∧ (∀ i j config input config' input',
       calls !! i = Some (DeleteSecretCall config input) →
       calls !! j = Some (DeleteSecretCall config' input') →
       i = j).
Proof.
  unfold DeleteAWSSecret, fetchAWSCreds. cbv zeta.
  change awsCredNamespace with "kube-system".
  change awsCredSecretName with "aws-creds".
  change awsCredKeyIdSecretKeyName with "aws_access_key_id".
  change awsCredAccessKeySecretKeyName with "aws_secret_access_key".
  destruct (getSecret "kube-system" "aws-creds") as [e0|data];
    [|destruct (newSession _) as [e1|] eqn:Hs;
      [|destruct (deleteSecret _ _) as [e2|]]];
    simpl;
    (split_and!;
     [ intros ns n Hin
     | intros config Hin
     | intros config input Hin
     | intros i j config input config' input' Hi Hj ]);
    try (rewrite ?elem_of_cons, elem_of_nil in Hin;
         destruct_or!; simplify_eq; try done);
    try (destruct i as [|[|[|i]]]; simpl in Hi; try done;
         destruct j as [|[|[|j]]]; simpl in Hj; done).
  all: try (eexists; split; [reflexivity|done]).
  all: split; [|done]; apply list_elem_of_further, list_elem_of_here.
Qed.

(** A secret without the two keys: the deletion was sent, so the session
    has been asked for, with empty credentials. *)
Lemma DeleteAWSSecret_calls_witness :
  NewSessionCall
    {| awssdk.AccessKeyID := ""; awssdk.SecretAccessKey := "";
       awssdk.Region := "us-east-1" |}
  ∈ (DeleteAWSSecret (credsOnly ∅) (λ _, None) (λ _ _, None)
       "e2e-secret" "us-east-1").2.
Proof.
  refine (proj1 (proj1 (proj2 (proj2
            (DeleteAWSSecret_calls (credsOnly ∅) (λ _, None) (λ _ _, None)
               "e2e-secret" "us-east-1")))
            {| awssdk.AccessKeyID := ""; awssdk.SecretAccessKey := "";
               awssdk.Region := "us-east-1" |}
            {| awssdk.SecretId := "e2e-secret";
               awssdk.ForceDeleteWithoutRecovery := true |} _)).
  vm_compute. do 2 apply list_elem_of_further. apply list_elem_of_here.
Defined.

(** * Replacing patterns in an asset *)

Lemma NewReplacer_odd oldnew :
  (gostrings.NewReplacer oldnew = None ↔ Nat.odd (length oldnew) = true)
  ∧ ∀ a, gostrings.NewReplacer (a :: oldnew) = None
         ↔ Nat.odd (S (length oldnew)) = true.
Proof.
  induction oldnew as [|b oldnew [IH1 IH2]].
  - by split.
  - split; [apply IH2|]. intros a.
    change (gostrings.NewReplacer (a :: b :: oldnew))
      with (match gostrings.NewReplacer oldnew with
            | Some pairs => Some ((a, b) :: pairs)
            | None => None
            end).
    change (Nat.odd (S (length (b :: oldnew))))
      with (Nat.odd (length oldnew)).
    rewrite <- IH1. by destruct (gostrings.NewReplacer oldnew).
Qed.

(** X15: the function made by [ReplacePatternInAsset] reads the file before
    it builds the replacer: when the read fails it returns that error for any
    list of patterns, and the panic of [strings.NewReplacer] on an odd number
    of patterns happens exactly when the file could be read. *)
Theorem ReplacePatternInAsset_reads_first
    readFile replacePatternString assetName :
  (∀ err,
     readFile assetName = inl err →
     ReplacePatternInAsset readFile replacePatternString assetName
     = Some (inl err))
  ∧ (∀ fileContent,
       readFile assetName = inr fileContent →
       (ReplacePatternInAsset readFile replacePatternString assetName = None
        ↔ Nat.odd (length replacePatternString) = true)).
Proof.
  unfold ReplacePatternInAsset. split.
  - by intros err ->.
  - intros fileContent ->.
    rewrite <- (proj1 (NewReplacer_odd replacePatternString)).
    by destruct (gostrings.NewReplacer replacePatternString).
Qed.

(** A missing asset and a pattern list with a dangling old string. *)
Lemma ReplacePatternInAsset_reads_first_witness :
  ReplacePatternInAsset (λ _, inl (statusError "no such file or directory"))
    ["${NAMESPACE}"; "demo"; "${NAME}"] "testdata/store.yaml"
  = Some (inl (statusError "no such file or directory")).
Proof.
  apply (proj1 (ReplacePatternInAsset_reads_first
                  (λ _, inl (statusError "no such file or directory"))
                  ["${NAMESPACE}"; "demo"; "${NAME}"] "testdata/store.yaml")).
  reflexivity.
Defined.

Lemma occursIn_cons old c s :
  gostrings.occursIn old (String c s) = false →
  String.prefix old (String c s) = false ∧ gostrings.occursIn old s = false.
Proof.
  change (gostrings.occursIn old (String c s))
    with (String.prefix old (String c s) || gostrings.occursIn old s).
  apply orb_false_iff.
Qed.

Lemma occursIn_prefix old s :
  gostrings.occursIn old s = false → String.prefix old s = false.
Proof.
  destruct s; [|by intros [? _]%occursIn_cons].
  unfold gostrings.occursIn. by rewrite orb_false_r.
Qed.

Lemma lookup_no_prefix pairs s ignoreRoot :
  Forall (λ p, String.prefix p.1 s = false) pairs →
  gostrings.lookup pairs s ignoreRoot = None.
Proof.
  induction 1 as [|[old new] pairs Hp _ IH]; simpl; [done|].
  simpl in Hp. by rewrite Hp.
Qed.

Lemma replaceFrom_no_occurrence pairs s :
  Forall (λ p, gostrings.occursIn p.1 s = false) pairs →
  gostrings.replaceFrom pairs s 0 = s.
Proof.
  induction s as [|c s IH]; intros Hno.
  - cbn [gostrings.replaceFrom]. rewrite lookup_no_prefix; [done|].
    eapply Forall_impl; [exact Hno|]. intros p. apply occursIn_prefix.
  - cbn [gostrings.replaceFrom]. rewrite lookup_no_prefix.
    + f_equal. apply IH. eapply Forall_impl; [exact Hno|].
      intros p Hp. by apply occursIn_cons in Hp as [_ ?].
    + eapply Forall_impl; [exact Hno|]. intros p. apply occursIn_prefix.
Qed.

(** X16: when none of the old strings of the patterns occurs in the file
    (so none of them is empty), the function made by
    [ReplacePatternInAsset] returns the content of the file unchanged; with
    no patterns at all it returns every file as it is. *)
Theorem ReplacePatternInAsset_no_occurrence
    readFile replacePatternString assetName fileContent pairs :
  readFile assetName = inr fileContent →
  gostrings.NewReplacer replacePatternString = Some pairs →
  forallb (λ p, negb (gostrings.occursIn p.1 fileContent)) pairs = true →
  ReplacePatternInAsset readFile replacePatternString assetName
  = Some (inr fileContent).
Proof.
  intros Hread Hpairs Hno. unfold ReplacePatternInAsset.
  rewrite Hread, Hpairs. do 2 f_equal. apply replaceFrom_no_occurrence.
  apply Forall_forall. intros p Hp.
  rewrite forallb_forall in Hno. apply negb_true_iff, Hno.
  by apply list_elem_of_In.
Qed.

(** An asset without placeholders. *)
Lemma ReplacePatternInAsset_no_occurrence_witness :
  ReplacePatternInAsset (λ _, inr "kind: SecretStore")
    ["${NAMESPACE}"; "demo"; "${NAME}"; "aws-store"] "testdata/store.yaml"
  = Some (inr "kind: SecretStore").
Proof.
  apply (ReplacePatternInAsset_no_occurrence (λ _, inr "kind: SecretStore")
           ["${NAMESPACE}"; "demo"; "${NAME}"; "aws-store"]
           "testdata/store.yaml" "kind: SecretStore"
           [("${NAMESPACE}", "demo"); ("${NAME}", "aws-store")]);
    reflexivity.
Defined.

(** * The errors of the multi-entity waiter *)

(** X17: an error returned by [VerifyPodsReadyByPrefix] is either
    [ctx.Err()] or the error, unchanged, of one of its list calls: the probe
    makes no error of its own, whatever the pods look like. *)
Theorem pods_error_origin prefixes cause first later e :
  VerifyPodsReadyByPrefix prefixes cause first later = Some e →
  e = cause ∨ inl e ∈ first :: later.
Proof.
  unfold VerifyPodsReadyByPrefix. rewrite poll_as_loop.
  destruct (wait.loopConditionUntilContext _ _ _ _) as [r u] eqn:Hrun.
  simpl. intros ->.
  apply loop_inv in Hrun
    as [[_ [= ->]]|(pre & got & post & [] & ok & -> & _ & Hc & _)];
    [by left|].
  right. destruct got as [e'|items].
  - simpl in Hc. simplify_eq. apply elem_of_app. right. apply list_elem_of_here.
  - by rewrite podsCondition_listed in Hc.
Qed.

(** The second list call is refused. *)
Lemma pods_error_origin_witness :
  statusError "Forbidden" = context.DeadlineExceeded
  ∨ inl (statusError "Forbidden")
    ∈ [inr [pendingPod "api-1"]; inl (statusError "Forbidden");
       inr [runningPod "api-1"]].
Proof.
  apply (pods_error_origin ["api"] context.DeadlineExceeded
           (inr [pendingPod "api-1"])
           [inl (statusError "Forbidden"); inr [runningPod "api-1"]]).
  vm_compute. reflexivity.
Defined.
